(** * mc-playtime-calc: a shallow embedding of [mc-playtime-calc.c]

    The program computes the play time recorded in Minecraft log files: for
    each log it subtracts the first [[hh:mm:ss]] timestamp from the last one,
    and it sums these durations over the files of a [logs] directory or of a
    whole [.minecraft] installation.

    Conventions of the embedding.
    - A [gzFile] opened for reading is the list of decoded bytes still to be
      read together with zlib's end-of-file indicator (the flag [gzeof]
      reports) and a flag telling how the stream ends: at the end of the
      input, or in a read or data error (a damaged archive, a directory
      opened as a file), after which every read fails without the
      end-of-file indicator being set.
    - [int] and [time_t] values are [Z].  Every number the program computes
      is tiny compared with the range of either type (a timestamp is at most
      362439, a file count is at most the number of directory entries plus
      one), so no wrap-around is written out.
    - A C function returning a status and writing through a pointer argument
      only on success returns an [option] or a small inductive type here.
    - The process state (file system, working directory, number of open
      compressed streams) is threaded explicitly through a small monad whose
      results also record [exit(1)] and a loop that does not end within its
      fuel; the loops that do not end do so for every amount of fuel.
    - The file system is a tree without symbolic links, so that [..] names
      the directory that holds the current one.
    - Text written to [stdout] and [stderr] is not modelled. *)

From Stdlib Require Import ZArith List Bool Lia Arith String Ascii.
From Stdlib Require Import Strings.Byte.
Import ListNotations.

#[local] Open Scope Z_scope.

(** ** Characters *)

Definition int_of_byte (b : byte) : Z := Z.of_N (Byte.to_N b).

(** The [(unsigned char)] conversion performed by [gzungetc]. *)
Definition byte_of_int (c : Z) : byte :=
  match Byte.of_N (Z.to_N (c mod 256)) with
  | Some b => b
  | None => x00
  end.

Definition EOF : Z := -1.
Definition CR : Z := 13.
Definition LF : Z := 10.

(** [isdigit] of the C locale. *)
Definition isdigit (ch : Z) : bool := (48 <=? ch) && (ch <=? 57).

Definition is_terminator (ch : Z) : bool := (ch =? CR) || (ch =? LF).

Definition bytes (s : string) : list byte := list_byte_of_string s.

(** ** zlib streams opened for reading *)

Module Gz.

Record gzFile : Type := mkGz
  { data : list byte   (* decoded bytes not yet consumed, pushed-back one first *)
  ; past : bool        (* a read has tried to go past the end of the input *)
  ; failing : bool     (* the bytes are followed by a read or data error *)
  }.

(** A stream right after [gzopen] on a file that is read to its end. *)
Definition fresh (content : list byte) : gzFile := mkGz content false false.

(** A stream right after [gzopen] on something whose reads fail once
    [content] has been delivered: an archive with damaged data, or, with no
    content at all, a directory. *)
Definition broken (content : list byte) : gzFile := mkGz content false true.

(** [gzgetc]: the next byte as a non-negative [int], or -1.  Reading at the
    end of the input sets the end-of-file indicator; a read that fails
    with an error returns -1 too, but leaves the indicator as it is. *)
Definition gzgetc (gf : gzFile) : Z * gzFile :=
  match data gf with
  | [] => (EOF, mkGz [] (if failing gf then past gf else true) (failing gf))
  | b :: rest => (int_of_byte b, mkGz rest (past gf) (failing gf))
  end.

(** [gzungetc]: push one character back; zlib clears the end-of-file
    indicator when it does so. *)
Definition gzungetc (c : Z) (gf : gzFile) : gzFile :=
  mkGz (byte_of_int c :: data gf) false (failing gf).

Definition gzeof (gf : gzFile) : Z := if past gf then 1 else 0.

End Gz.
Import Gz.

(** ** [parseLine] *)

Definition tag : list byte := bytes "[hh:mm:ss]".

Definition ch_h : Z := 104.
Definition ch_m : Z := 109.
Definition ch_s : Z := 115.

(** The [for] loop of [parseLine] over the characters of [tag] that are
    still to be matched; [hour], [minute] and [second] are the accumulators.
    [None] is one of the three [return 1] of the loop. *)
Fixpoint match_tag (tg : list byte) (gf : gzFile) (hour minute second : Z)
  : option (Z * Z * Z) * gzFile :=
  match tg with
  | [] => (Some (hour, minute, second), gf)
  | t :: tg' =>
      let ti := int_of_byte t in
      let (ch, gf1) := gzgetc gf in
      if ch =? EOF then (None, gf1)
      else if (ti =? ch_h) || (ti =? ch_m) || (ti =? ch_s) then
        if negb (isdigit ch) then (None, gf1)
        else if ti =? ch_h then match_tag tg' gf1 (hour * 10 + (ch - 48)) minute second
        else if ti =? ch_m then match_tag tg' gf1 hour (minute * 10 + (ch - 48)) second
        else match_tag tg' gf1 hour minute (second * 10 + (ch - 48))
      else if negb (ch =? ti) then (None, gf1)
      else match_tag tg' gf1 hour minute second
  end.

(** [while ((ch = gzgetc(gf)) != EOF && ch != '\r' && ch != '\n');]
    by recursion on the bytes still unread of the stream with indicator [p]
    and error flag [f]; the result is the last value of [ch] and the stream
    after the loop. *)
Fixpoint skip_rest_of_line (bs : list byte) (p f : bool) : Z * gzFile :=
  match bs with
  | [] => gzgetc (mkGz [] p f)
  | b :: bs' =>
      let ch := int_of_byte b in
      if negb (ch =? CR) && negb (ch =? LF) then skip_rest_of_line bs' p f
      else (ch, mkGz bs' p f)
  end.

(** [while ((ch = gzgetc(gf)) != EOF && (ch == '\r' || ch == '\n'));] *)
Fixpoint skip_terminators (bs : list byte) (p f : bool) : Z * gzFile :=
  match bs with
  | [] => gzgetc (mkGz [] p f)
  | b :: bs' =>
      let ch := int_of_byte b in
      if (ch =? CR) || (ch =? LF) then skip_terminators bs' p f
      else (ch, mkGz bs' p f)
  end.

(** [parseLine]: [Some time] stands for return value 0 with [*time] written,
    [None] for return value 1 with [*time] untouched. *)
Definition parseLine (gf : gzFile) : option Z * gzFile :=
  match match_tag tag gf 0 0 0 with
  | (None, gf1) => (None, gf1)
  | (Some (hour, minute, second), gf1) =>
      let time := (hour * 60 + minute) * 60 + second in
      let (_, gf2) := skip_rest_of_line (data gf1) (past gf1) (failing gf1) in
      let (ch, gf3) := skip_terminators (data gf2) (past gf2) (failing gf2) in
      let gf4 := if negb (ch =? EOF) then gzungetc ch gf3 else gf3 in
      (Some time, gf4)
  end.

(** ** [parseFile] on an opened stream *)

(** Outcome of [parseFile]: return value 0 with the duration written to
    [*time], return value 1, return value 2. *)
Inductive ParseOutcome : Type :=
  | Parsed (duration : Z)
  | SystemFailure
  | FormatFailure.

(** [while (parseLine(gf, &start) == 1) if (gzeof(gf) == 1) return 2;]
    The outer [None] is fuel exhaustion, [Some None] is the [return 2], and
    [Some (Some (start, gf'))] is the normal exit of the loop. *)
Fixpoint find_start (fuel : nat) (gf : gzFile) : option (option (Z * gzFile)) :=
  match fuel with
  | O => None
  | S fuel' =>
      match parseLine gf with
      | (Some start, gf1) => Some (Some (start, gf1))
      | (None, gf1) =>
          if gzeof gf1 =? 1 then Some None else find_start fuel' gf1
      end
  end.

(** [while (gzeof(gf) == 0) if (parseLine(gf, &tmp) == 0) end = tmp;] *)
Fixpoint find_end (fuel : nat) (gf : gzFile) (end_ : Z) : option (Z * gzFile) :=
  match fuel with
  | O => None
  | S fuel' =>
      if gzeof gf =? 0 then
        match parseLine gf with
        | (Some tmp, gf1) => find_end fuel' gf1 tmp
        | (None, gf1) => find_end fuel' gf1 end_
        end
      else Some (end_, gf)
  end.

(** Fuel that suffices for both loops on a stream with the given content
    (see [find_start_total] and [find_end_total]). *)
Definition fuel_for (content : list byte) : nat := (List.length content + 2)%nat.

(** ** [isLogGzFile] *)

Definition NUL : ascii := Ascii.zero.

(** [name[i]] for a C string: the characters of [name], then the
    terminating NUL. *)
Definition cchar (name : string) (i : nat) : ascii :=
  match String.get i name with
  | Some c => c
  | None => NUL
  end.

Definition int_of_char (c : ascii) : Z := Z.of_nat (nat_of_ascii c).

(** The string literal ["nnnn-nn-nn-n.log.gz"] with its terminating NUL. *)
Definition format : list ascii :=
  list_ascii_of_string "nnnn-nn-nn-n.log.gz" ++ [NUL].

(** The [for (;;)] loop of [isLogGzFile], by recursion on the characters of
    [format] from index [i] on.  The loop always returns at the NUL that
    ends [format], so the first case is never reached. *)
Fixpoint isLogGzFile_from (fmt : list ascii) (name : string) (i : nat) : Z :=
  match fmt with
  | [] => 0
  | f :: fmt' =>
      if Ascii.eqb f "n" then
        if negb (isdigit (int_of_char (cchar name i))) then 0
        else isLogGzFile_from fmt' name (S i)
      else
        if negb (Ascii.eqb (cchar name i) f) then 0
        else if Ascii.eqb f NUL then 1
        else isLogGzFile_from fmt' name (S i)
  end.

Definition isLogGzFile (name : string) : Z := isLogGzFile_from format name 0.

(** The condition [if (isLogGzFile(name))]: the result is not 0. *)
Definition accepted (name : string) : bool := negb (isLogGzFile name =? 0).

(** ** The process and its file system *)

(** A file-system object.  A regular file carries its read permission and
    its content as the decompression layer delivers it; [Damaged] is a
    regular file too, an archive whose compressed data is damaged after
    [content] was decoded; a directory carries its search and read
    permissions and its entries in the order [readdir] reports them;
    [Special] is an object of another kind, one that [open] refuses (a
    socket).  There are no symbolic links. *)
#[warnings="-register-all"] Inductive node : Type :=
  | Reg (readable : bool) (content : list byte)
  | Damaged (readable : bool) (content : list byte)
  | Dir (searchable readable : bool) (entries : list (string * node))
  | Special.

(** The object at an absolute, dot-free list of components; every
    directory on the way must be searchable. *)
Fixpoint lookup (n : node) (p : list string) : option node :=
  match p with
  | [] => Some n
  | c :: p' =>
      match n with
      | Dir true _ entries =>
          (fix find (es : list (string * node)) : option node :=
             match es with
             | [] => None
             | (nm, child) :: es' =>
                 if String.eqb nm c then lookup child p' else find es'
             end) entries
      | _ => None
      end
  end.

Record world : Type := mkWorld
  { fs : node                (* the root directory *)
  ; cwd : list string        (* the working directory, as components from the root *)
  ; open_gz : nat            (* compressed streams opened and not yet closed *)
  }.

Definition set_cwd (w : world) (p : list string) : world :=
  mkWorld (fs w) p (open_gz w).

Definition set_open_gz (w : world) (n : nat) : world :=
  mkWorld (fs w) (cwd w) n.

(** The components of a path, split at every ['/']. *)
Fixpoint components (s : string) : list string :=
  match s with
  | EmptyString => [EmptyString]
  | String c s' =>
      if Ascii.eqb c "/" then EmptyString :: components s'
      else match components s' with
           | [] => [String c EmptyString]
           | x :: xs => String c x :: xs
           end
  end.

Definition is_absolute (s : string) : bool :=
  match s with
  | String c _ => Ascii.eqb c "/"
  | EmptyString => false
  end.

(** Path resolution from the directory [cur]: every step needs the
    directory it starts from to be searchable and the object it reaches to
    exist. *)
Fixpoint walk (root : node) (cur : list string) (cs : list string)
  : option (list string) :=
  match cs with
  | [] => Some cur
  | c :: cs' =>
      match lookup root cur with
      | Some (Dir true _ _) =>
          let next :=
            if String.eqb c "" || String.eqb c "." then cur
            else if String.eqb c ".." then removelast cur
            else cur ++ [c] in
          match lookup root next with
          | Some _ => walk root next cs'
          | None => None
          end
      | _ => None
      end
  end.

Definition resolve (w : world) (path : string) : option (list string) :=
  if String.eqb path "" then None
  else walk (fs w) (if is_absolute path then [] else cwd w) (components path).

Definition node_at (w : world) (path : string) : option node :=
  match resolve w path with
  | Some p => lookup (fs w) p
  | None => None
  end.

(** Results of a computation of the process: a value and the new state, the
    termination of the process by [exit], or a loop that did not end within
    its fuel ([parseFile_never_returns] shows that the loops of [parseFile]
    for which this happens do not end with any fuel). *)
Inductive result (A : Type) : Type :=
  | Ret (a : A) (w : world)
  | Exit (status : Z)
  | Spin.
Arguments Ret {A} a w.
Arguments Exit {A} status.
Arguments Spin {A}.

Definition M (A : Type) : Type := world -> result A.

Definition ret {A : Type} (a : A) : M A := fun w => Ret a w.

Definition bind {A B : Type} (m : M A) (k : A -> M B) : M B :=
  fun w =>
    match m w with
    | Ret a w' => k a w'
    | Exit st => Exit st
    | Spin => Spin
    end.

Notation "x <- m ;; k" := (bind m (fun x => k))
  (at level 61, m at next level, right associativity).
Notation "m ;;; k" := (bind m (fun _ => k))
  (at level 61, right associativity).

(** A loop result: [None] is fuel exhaustion. *)
Definition fuelled {A : Type} (r : option A) : M A :=
  fun w => match r with Some a => Ret a w | None => Spin end.

(** *** System and library calls *)

(** [chdir]: 0 on success, -1 on failure. *)
Definition chdir (path : string) : M Z :=
  fun w =>
    match resolve w path with
    | Some p =>
        match lookup (fs w) p with
        | Some (Dir true _ _) => Ret 0 (set_cwd w p)
        | _ => Ret (-1) w
        end
    | None => Ret (-1) w
    end.

(** [opendir(".")] followed by the sequence of names [readdir] returns:
    [None] is the NULL of a failed [opendir]. *)
Definition opendir_dot : M (option (list string)) :=
  fun w =>
    match lookup (fs w) (cwd w) with
    | Some (Dir _ true entries) => Ret (Some ("." :: ".." :: map fst entries)%string) w
    | _ => Ret None w
    end.

Inductive file_kind : Type := S_ISDIR | S_ISREG | S_OTHER.

(** [stat]: [None] is the return value -1. *)
Definition stat (path : string) : M (option file_kind) :=
  fun w =>
    Ret (match node_at w path with
         | Some (Dir _ _ _) => Some S_ISDIR
         | Some (Reg _ _) => Some S_ISREG
         | Some (Damaged _ _) => Some S_ISREG
         | Some Special => Some S_OTHER
         | None => None
         end) w.

(** [gzopen(path, "r")]: whatever [open] can open for reading is opened.
    A regular file gives a stream of its content.  A damaged archive gives
    the bytes decoded before the damage, then reads that fail.  A directory
    that may be read is opened as well (as [open] does on Linux), and every
    read of it fails.  A missing or unreadable object, and a special file,
    give NULL. *)
Definition gzopen (path : string) : M (option gzFile) :=
  fun w =>
    match node_at w path with
    | Some (Reg true content) =>
        Ret (Some (fresh content)) (set_open_gz w (S (open_gz w)))
    | Some (Damaged true content) =>
        Ret (Some (broken content)) (set_open_gz w (S (open_gz w)))
    | Some (Dir _ true _) =>
        Ret (Some (broken [])) (set_open_gz w (S (open_gz w)))
    | _ => Ret None w
    end.

Definition gzclose (gf : gzFile) : M unit :=
  fun w => Ret tt (set_open_gz w (pred (open_gz w))).

(** [getcwd(NULL, 0)]: the working directory as an absolute path. *)
Definition render (p : list string) : string :=
  match p with
  | [] => "/"
  | _ => fold_right (fun c acc => "/" ++ c ++ acc) "" p
  end%string.

Definition getcwd : M (option string) := fun w => Ret (Some (render (cwd w))) w.

(** [basename]: the last non-empty component, ["/"] when there is none. *)
Definition basename (path : string) : string :=
  match filter (fun c => negb (String.eqb c "")) (components path) with
  | [] => "/"
  | c :: cs => last cs c
  end.

(** ** The functions of the program *)

(** [parseFile]: the loops run with the fuel [fuel_for] of the content. *)
Definition parseFile (path : string) : M ParseOutcome :=
  gf <- gzopen path ;;
  match gf with
  | None => ret SystemFailure
  | Some gf =>
      let fuel := fuel_for (data gf) in
      r <- fuelled (find_start fuel gf) ;;
      match r with
      | None => ret FormatFailure
      | Some (start, gf1) =>
          r' <- fuelled (find_end fuel gf1 start) ;;
          let (end_, gf2) := r' : Z * gzFile in
          gzclose gf2 ;;;
          ret (Parsed (end_ - start))
      end
  end.

Definition chdir_s (path : string) : M unit :=
  r <- chdir path ;;
  if negb (r =? 0) then (fun _ => Exit 1) else ret tt.

(** The [while ((entry = readdir(dir)) != NULL)] loop of [parseDirectory]
    over the names still to be reported; the state is [(sum, file)]. *)
Fixpoint scan_entries (names : list string) (sum file : Z) : M (Z * Z) :=
  match names with
  | [] => ret (sum, file)
  | d_name :: rest =>
      if accepted d_name then
        r <- parseFile d_name ;;
        match r with
        | Parsed tmp => scan_entries rest (sum + tmp) (file + 1)
        | _ => scan_entries rest sum file
        end
      else scan_entries rest sum file
  end.

(** [parseDirectory]: [None] is the return value -1, [Some (file, time)] is
    the return value [file] with [*time] written.  A NULL [path] or [origin]
    is [None]. *)
Definition parseDirectory (path origin : option string) : M (option (Z * Z)) :=
  r <- match path with Some p => chdir p | None => ret 0 end ;;
  if negb (r =? 0) then ret None
  else
    dir <- opendir_dot ;;
    match dir with
    | None => ret None
    | Some names =>
        sf <- scan_entries names 0 0 ;;
        let (sum, file) := sf : Z * Z in
        r <- parseFile "latest.log" ;;
        let (sum, file) :=
          match r with
          | Parsed tmp => (sum + tmp, file + 1)
          | _ => (sum, file)
          end in
        match origin with Some o => chdir_s o | None => ret tt end ;;;
        ret (Some (file, sum))
    end.

(** The [readdir] loop of [parseDotMinecraftDirectory] over the entries of
    [versions]. *)
Fixpoint scan_versions (names : list string) (sum file : Z) : M (Z * Z) :=
  match names with
  | [] => ret (sum, file)
  | d_name :: rest =>
      if String.eqb d_name "." || String.eqb d_name ".." then
        scan_versions rest sum file
      else
        r <- chdir d_name ;;
        if negb (r =? 0) then scan_versions rest sum file
        else
          ret_ <- parseDirectory (Some "logs"%string) (Some ".."%string) ;;
          let (sum, file) :=
            match ret_ with
            | Some (n, tmp) => (sum + tmp, file + n)
            | None => (sum, file)
            end in
          chdir_s ".." ;;;
          scan_versions rest sum file
  end.

Definition parseDotMinecraftDirectory (path origin : option string)
  : M (option (Z * Z)) :=
  r <- match path with Some p => chdir p | None => ret 0 end ;;
  if negb (r =? 0) then ret None
  else
    ret_ <- parseDirectory (Some "logs"%string) (Some ".."%string) ;;
    let (sum, file) :=
      match ret_ with
      | Some (n, tmp) => (0 + tmp, 0 + n)
      | None => (0, 0)
      end in
    r <- chdir "versions" ;;
    sf <- (if negb (r =? 0) then ret (sum, file)       (* goto VERSIONS_END *)
           else
             dir <- opendir_dot ;;
             sf <- match dir with
                   | None => ret (sum, file)            (* goto DIR_END *)
                   | Some names => scan_versions names sum file
                   end ;;
             chdir_s ".." ;;;                           (* DIR_END *)
             ret sf) ;;
    let (sum, file) := sf : Z * Z in
    match origin with Some o => chdir_s o | None => ret tt end ;;;
    ret (Some (file, sum)).

Definition getcwd_s : M string :=
  r <- getcwd ;;
  match r with
  | Some p => ret p
  | None => fun _ => Exit 1
  end.

(** [autoParse]: [None] is the return value -1. *)
Definition autoParse (path origin : option string) : M (option (Z * Z)) :=
  let path := match path with Some p => p | None => "." end%string in
  st <- stat path ;;
  match st with
  | None => ret None
  | Some S_ISDIR =>
      r <- chdir path ;;
      if negb (r =? 0) then ret None
      else
        cwd_ <- getcwd_s ;;
        let name := basename cwd_ in
        ret_ <- (if String.eqb name ".minecraft"
                 then parseDotMinecraftDirectory None None
                 else parseDirectory None None) ;;
        match ret_ with
        | None => ret None                               (* case -1 *)
        | Some (n, tmp) =>
            if n =? 0 then ret None                      (* case 0 *)
            else
              match origin with Some o => chdir_s o | None => ret tt end ;;;
              ret (Some (0 + n, tmp))
        end
  | Some S_ISREG =>
      r <- parseFile path ;;
      match r with
      | SystemFailure => ret None
      | FormatFailure => ret None
      | Parsed tmp => ret (Some (0 + 1, tmp))
      end
  | Some S_OTHER => ret None
  end.

(** The loop of [main] over [argv[1..]]; [origin] is the result of
    [getcwd_s] before the loop. *)
Fixpoint main_loop (args : list string) (origin : string) (sum file : Z)
  : M (Z * Z) :=
  match args with
  | [] => ret (sum, file)
  | a :: rest =>
      ret_ <- autoParse (Some a) (Some origin) ;;
      match ret_ with
      | Some (n, tmp) => main_loop rest origin (sum + tmp) (file + n)
      | None => main_loop rest origin sum file
      end
  end.

(** The three last arguments of the final [printf] of [main]:
    [sum / 60 / 60], [sum / 60 % 60] and [sum % 60].  Division and
    remainder of C truncate towards zero. *)
Definition total_time_fields (sum : Z) : Z * Z * Z :=
  (Z.quot (Z.quot sum 60) 60, Z.rem (Z.quot sum 60) 60, Z.rem sum 60).


(** * Definitions used to state the properties *)

(** ** Timestamps at the head of a byte sequence *)

Definition is_digit (b : byte) : bool := isdigit (int_of_byte b).

Definition digit (b : byte) : Z := int_of_byte b - 48.

Definition two_digits (hi lo : byte) : Z := digit hi * 10 + digit lo.

(** The three fields of a sequence that begins with a ['['], two decimal
    digits, [':'], two decimal digits, [':'], two decimal digits and [']'];
    [None] when the sequence does not begin so. *)
Definition timestamp_fields (bs : list byte) : option (Z * Z * Z) :=
  match bs with
  | l :: h1 :: h2 :: c1 :: m1 :: m2 :: c2 :: s1 :: s2 :: r :: _ =>
      if Byte.eqb l "["
         && is_digit h1 && is_digit h2 && Byte.eqb c1 ":"
         && is_digit m1 && is_digit m2 && Byte.eqb c2 ":"
         && is_digit s1 && is_digit s2 && Byte.eqb r "]"
      then Some (two_digits h1 h2, two_digits m1 m2, two_digits s1 s2)
      else None
  | _ => None
  end.

Definition seconds_of (f : Z * Z * Z) : Z :=
  let '(h, m, s) := f in (h * 60 + m) * 60 + s.

(** Whether the byte [b] fits the position of the template that holds the
    character [t]: a digit where [t] is a placeholder, [t] itself elsewhere. *)
Definition is_field (t : byte) : bool :=
  Byte.eqb t "h" || Byte.eqb t "m" || Byte.eqb t "s".

Definition slot_ok (t b : byte) : bool :=
  if is_field t then is_digit b else Byte.eqb b t.

(** The number of leading bytes of [bs] that fit the template [tg]. *)
Fixpoint matched_prefix (tg bs : list byte) : nat :=
  match tg, bs with
  | t :: tg', b :: bs' => if slot_ok t b then S (matched_prefix tg' bs') else O
  | _, _ => O
  end.

(** The accumulators after the bytes of [bs] were read against [tg]. *)
Fixpoint accumulate (tg bs : list byte) (hour minute second : Z) : Z * Z * Z :=
  match tg, bs with
  | t :: tg', b :: bs' =>
      if Byte.eqb t "h" then accumulate tg' bs' (hour * 10 + digit b) minute second
      else if Byte.eqb t "m" then accumulate tg' bs' hour (minute * 10 + digit b) second
      else if Byte.eqb t "s" then accumulate tg' bs' hour minute (second * 10 + digit b)
      else accumulate tg' bs' hour minute second
  | _, _ => (hour, minute, second)
  end.

(** ** Lines *)

Definition terminator (b : byte) : bool := is_terminator (int_of_byte b).

Fixpoint drop_while (f : byte -> bool) (bs : list byte) : list byte :=
  match bs with
  | [] => []
  | b :: bs' => if f b then drop_while f bs' else bs
  end.

(** The input from the start of the next line on: everything up to and
    including the next line terminator is dropped, then every terminator
    that follows directly. *)
Definition next_line_start (bs : list byte) : list byte :=
  drop_while terminator (tl (drop_while (fun b => negb (terminator b)) bs)).

Definition tag_has_no_terminator (tg : list byte) : Prop :=
  Forall (fun t => terminator t = false) tg.

Definition is_nil {A : Type} (l : list A) : bool :=
  match l with [] => true | _ => false end.

(** ** Progress of a scan *)

(** The bytes still unread, plus one while the end of the input has not
    been observed (the measure that decreases on a stream read to its
    end). *)
Definition measure (gf : gzFile) : nat :=
  (List.length (data gf) + (if past gf then 0 else 1))%nat.

(** The timestamps obtained by invoking [parseLine] again and again until
    the end of the stream is observed, in the order of the invocations. *)
Fixpoint scans (fuel : nat) (gf : gzFile) : list Z :=
  match fuel with
  | O => []
  | S fuel' =>
      if past gf then []
      else match parseLine gf with
           | (Some t, gf1) => t :: scans fuel' gf1
           | (None, gf1) => scans fuel' gf1
           end
  end.

Definition timestamps (content : list byte) : list Z :=
  scans (fuel_for content) (fresh content).

(** The duration the specification assigns to a sequence of scanned
    timestamps: the last one minus the first one. *)
Definition duration_of (ts : list Z) : Z := last ts 0 - hd 0 ts.

(** ** The stream after one call of [parseLine] *)

(** The stream after a failed match: the [return 1] leaves it just after
    the byte that did not fit, or where the bytes ran out; the end-of-file
    indicator is set when they ran out at the end of the input, and not
    when the read failed. *)
Definition after_mismatch (gf : gzFile) : gzFile :=
  let k := matched_prefix tag (data gf) in
  mkGz (skipn (S k) (data gf))
       (past gf || (negb (failing gf) && (List.length (data gf) <=? k)%nat))
       (failing gf).

(** The stream after a successful match: at the start of the next line; the
    end-of-file indicator is set when nothing is left and the end of the
    input was reached, it is as before when nothing is left because a read
    failed, and it is clear when a byte was pushed back. *)
Definition after_line (gf : gzFile) : gzFile :=
  mkGz (next_line_start (data gf))
       (is_nil (next_line_start (data gf)) && (negb (failing gf) || past gf))
       (failing gf).

(** ** The outcome of [parseFile] in terms of the scanned timestamps *)

Definition parse_content (content : list byte) : ParseOutcome :=
  match timestamps content with
  | [] => FormatFailure
  | ts => Parsed (duration_of ts)
  end.

(** ** Files as sequences of lines *)

(** A line of text followed by a line feed. *)
Definition line (text : list byte) : list byte := text ++ [x0a].

Definition file_of_lines (ls : list (list byte)) : list byte :=
  List.concat (map line ls).

(** The sequence is empty or its last byte is a line terminator. *)
Fixpoint ends_at_eol (bs : list byte) : bool :=
  match bs with
  | [] => true
  | b :: bs' =>
      match bs' with
      | [] => terminator b
      | _ => ends_at_eol bs'
      end
  end.

(** No timestamp begins at any offset of the content. *)
Definition no_timestamp_anywhere (content : list byte) : Prop :=
  forall n : nat, timestamp_fields (skipn n content) = None.

(** ** Names of archived logs *)

(** The C string a sequence of characters denotes: the characters before
    the first NUL. *)
Fixpoint c_str (s : string) : string :=
  match s with
  | EmptyString => EmptyString
  | String c s' => if Ascii.eqb c NUL then EmptyString else String c (c_str s')
  end.

Definition is_digit_char (c : ascii) : bool := isdigit (int_of_char c).

(** A name made of four decimal digits, a hyphen, two digits, a hyphen, two
    digits, a hyphen, one digit and the literal [.log.gz], and nothing
    more. *)
Definition archived_log_name (name : string) : Prop :=
  exists y1 y2 y3 y4 m1 m2 d1 d2 n : ascii,
    is_digit_char y1 = true /\ is_digit_char y2 = true
    /\ is_digit_char y3 = true /\ is_digit_char y4 = true
    /\ is_digit_char m1 = true /\ is_digit_char m2 = true
    /\ is_digit_char d1 = true /\ is_digit_char d2 = true
    /\ is_digit_char n = true
    /\ name = (string_of_list_ascii
                 [y1; y2; y3; y4; "-"; m1; m2; "-"; d1; d2; "-"; n]%char
               ++ ".log.gz")%string.

(** Whether the character [c] fits the position of a format that holds
    [f], and whether a whole string fits a whole format. *)
Definition slot_fits (f c : ascii) : bool :=
  if Ascii.eqb f "n" then is_digit_char c else Ascii.eqb c f.

Fixpoint fits (fmt : list ascii) (s : string) : bool :=
  match fmt, s with
  | [], EmptyString => true
  | f :: fmt', String c s' => slot_fits f c && fits fmt' s'
  | _, _ => false
  end.

(** ** The files of a log directory *)

(** The files [parseDirectory] tries to parse: the entries whose names are
    accepted, in the order of the listing, then [latest.log]. *)
Definition candidates (names : list string) : list string :=
  filter accepted names ++ ["latest.log"%string].

(** The outcome of parsing the file [name] of the working directory;
    [None] when [parseFile] does not return: the file opens, and its reads
    end in an error. *)
Definition file_outcome (w : world) (name : string) : option ParseOutcome :=
  match node_at w name with
  | Some (Reg true content) => Some (parse_content content)
  | Some (Damaged true _) => None
  | Some (Dir _ true _) => None
  | _ => Some SystemFailure
  end.

(** Some file of the working directory among [names] is one on which
    [parseFile] does not return. *)
Definition some_endless (w : world) (names : list string) : bool :=
  existsb (fun name => match file_outcome w name with None => true | _ => false end)
          names.

(** The durations of the files that were parsed. *)
Definition durations (outcomes : list (option ParseOutcome)) : list Z :=
  flat_map (fun o => match o with Some (Parsed d) => [d] | _ => [] end) outcomes.

Definition total (ds : list Z) : Z := fold_right Z.add 0 ds.

(** [parseDirectory] got into the directory [path] names: [w1] is the
    process after the optional [chdir]. *)
Definition entered (w : world) (path : option string) (w1 : world) : Prop :=
  match path with
  | Some p => chdir p w = Ret 0 w1
  | None => w1 = w
  end.

(** ** A small installation used in the examples *)

Definition text_file (ls : list string) : list byte :=
  file_of_lines (map bytes ls).

(** A session of 100 seconds with a stack trace in the middle. *)
Definition session_one : list byte :=
  text_file [ "[10:00:00] [main/INFO]: Loading";
              "java.lang.IllegalStateException: oops";
              "[10:01:40] [main/INFO]: Stopping" ]%string.

(** A session of 200 seconds. *)
Definition session_two : list byte :=
  text_file [ "[23:00:00] [main/INFO]: Loading";
              "[23:03:20] [main/INFO]: Stopping" ]%string.

(** A session of 50 seconds with lines that do not begin with a timestamp. *)
Definition current_session : list byte :=
  text_file [ "[00:00:10] [main/INFO]: Loading";
              "garbage";
              "    at x.y.z [00:00:30] nested";
              "[00:01:00] [main/INFO]: Stopping" ]%string.

Definition example_root : node :=
  Dir true true
    [ ("logs", Dir true true
         [ ("2023-10-05-1.log.gz", Reg true session_one);
           ("notes.txt", Reg true (bytes "shopping list"));
           ("2023-10-06-1.log.gz", Reg true session_two);
           ("latest.log", Reg true current_session) ]);
      ("empty.log", Reg true []);
      ("locked", Dir true false []);
      ("empty", Dir true true []) ]%string.

Definition example_world : world := mkWorld example_root [] 0.

(** A log written with carriage return and line feed at the end of every
    line, a blank line in the middle and no line end after the last line. *)
Definition crlf_session : list byte :=
  bytes "[08:00:00] start" ++ [x0d; x0a]
  ++ bytes "java.lang.Error" ++ [x0d; x0a; x0d; x0a]
  ++ bytes "[08:00:30] stop".

Definition crlf_world : world :=
  mkWorld (Dir true true [ ("latest.log"%string, Reg true crlf_session) ]) [] 0.

(** A directory whose archived log and current log hold no timestamp. *)
Definition stale_world : world :=
  mkWorld (Dir true true
             [ ("2020-01-01-1.log.gz"%string, Reg true (bytes "not a log"));
               ("latest.log"%string, Reg true []) ])
          [] 0.

(** A log directory in which [latest.log] is a directory. *)
Definition nested_world : world :=
  mkWorld (Dir true true
             [ ("2023-10-05-1.log.gz"%string, Reg true session_one);
               ("latest.log"%string, Dir true true []) ])
          [] 0.

(** A log directory with an archive whose compressed data is damaged after
    its first line. *)
Definition damaged_world : world :=
  mkWorld (Dir true true
             [ ("2023-10-05-1.log.gz"%string,
                Damaged true (line (bytes "[10:00:00] [main/INFO]: Loading")));
               ("latest.log"%string, Reg true current_session) ])
          [] 0.

(** A file in which one line begins with a timestamp and another line holds
    one inside, a file in which no line begins with a timestamp and one
    line holds one inside, and a file in which one line begins with a
    timestamp and no other line holds one. *)
Definition inside_world : world :=
  mkWorld (Dir true true
             [ ("one.log"%string,
                Reg true (text_file [ "[12:00:00] start";
                                      "java.lang.X: at [12:30:00] tick" ]%string));
               ("none.log"%string,
                Reg true (text_file [ "Exception at [12:30:00] tick" ]%string));
               ("single.log"%string,
                Reg true (text_file [ "starting up";
                                      "[12:00:00] start";
                                      "done" ]%string)) ])
          [] 0.

(** A log that starts before midnight and ends after it. *)
Definition night_world : world :=
  mkWorld (Dir true true
             [ ("night.log"%string,
                Reg true (text_file [ "[23:00:00] evening";
                                      "[00:00:10] after midnight" ]%string)) ])
          [] 0.

(** ** Further notions *)

(** The outcome is the [return 2] of [parseFile]. *)
Definition is_format_failure (o : ParseOutcome) : bool :=
  match o with
  | FormatFailure => true
  | _ => false
  end.

Definition holds_no_timestamp (o : option ParseOutcome) : bool :=
  match o with
  | Some o' => is_format_failure o'
  | None => false
  end.

(** The number of files of the working directory, among [names], that
    open, are read to their end and hold no timestamp. *)
Definition format_failures (w : world) (names : list string) : nat :=
  List.length (filter holds_no_timestamp (map (file_outcome w) names)).

(** The loop of [isLogGzFile] again, recording the indices at which it
    reads [name]: the result of the loop and the indices, in the order of
    the reads. *)
Fixpoint isLogGzFile_reads (fmt : list ascii) (name : string) (i : nat)
  : Z * list nat :=
  match fmt with
  | [] => (0, [])
  | f :: fmt' =>
      if Ascii.eqb f "n" then
        if negb (isdigit (int_of_char (cchar name i))) then (0, [i])
        else let (r, reads) := isLogGzFile_reads fmt' name (S i) in (r, i :: reads)
      else
        if negb (Ascii.eqb (cchar name i) f) then (0, [i])
        else if Ascii.eqb f NUL then (1, [i])
        else let (r, reads) := isLogGzFile_reads fmt' name (S i) in (r, i :: reads)
  end.

(** What the computation returns, if it returns, satisfies [P]; if it ends
    the process, it does so with status 1. *)
Definition returns_or_exits {A : Type} (P : A -> Prop) (r : result A) : Prop :=
  match r with
  | Ret a _ => P a
  | Exit status => status = 1
  | Spin => True
  end.

(** The file count of a result, when there is one, is at least [k]. *)
Definition count_at_least (k : Z) (r : option (Z * Z)) : Prop :=
  match r with
  | Some (n, _) => k <= n
  | None => True
  end.

(** * Properties *)

Example parseLine_ex1 :
  parseLine (fresh (bytes "[01:02:03] hi" ++ [x0a; x0d; x0a] ++ bytes "[x"))
  = (Some 3723, mkGz (bytes "[x") false false).
Proof. reflexivity. Qed.

Example parseLine_ex2 :
  parseLine (fresh (bytes "abc")) = (None, mkGz (bytes "bc") false false).
Proof. reflexivity. Qed.

(** ** Characters *)

Lemma int_of_byte_range (b : byte) : 0 <= int_of_byte b <= 255.
Proof.
  unfold int_of_byte. pose proof (Byte.to_N_bounded b). lia.
Qed.

Lemma int_of_byte_inj (a b : byte) : int_of_byte a = int_of_byte b -> a = b.
Proof.
  unfold int_of_byte. intros H. apply N2Z.inj in H.
  pose proof (Byte.of_to_N a) as Ha. pose proof (Byte.of_to_N b) as Hb.
  rewrite H in Ha. congruence.
Qed.

Lemma int_of_byte_eqb (a b : byte) :
  (int_of_byte a =? int_of_byte b) = Byte.eqb a b.
Proof.
  destruct (Byte.eqb a b) eqn:E.
  - apply Byte.byte_dec_bl in E. subst. apply Z.eqb_refl.
  - apply Z.eqb_neq. intros H. apply int_of_byte_inj in H.
    apply Byte.eqb_false in E. contradiction.
Qed.

Lemma int_of_byte_not_EOF (b : byte) : (int_of_byte b =? EOF) = false.
Proof.
  apply Z.eqb_neq. pose proof (int_of_byte_range b). unfold EOF. lia.
Qed.

Lemma byte_of_int_of_byte (b : byte) : byte_of_int (int_of_byte b) = b.
Proof.
  unfold byte_of_int. pose proof (int_of_byte_range b).
  rewrite Z.mod_small by lia. unfold int_of_byte.
  rewrite N2Z.id, Byte.of_to_N. reflexivity.
Qed.

Lemma digit_range (b : byte) : is_digit b = true -> 0 <= digit b <= 9.
Proof.
  unfold is_digit, isdigit, digit. intros H.
  apply andb_true_iff in H. destruct H as [H1 H2].
  apply Z.leb_le in H1. apply Z.leb_le in H2. lia.
Qed.

Lemma digit_not_terminator (b : byte) : is_digit b = true -> terminator b = false.
Proof.
  unfold is_digit, isdigit, terminator, is_terminator, CR, LF. intros H.
  apply andb_true_iff in H. destruct H as [H1 H2].
  apply Z.leb_le in H1. apply Z.leb_le in H2.
  apply orb_false_iff. split; apply Z.eqb_neq; lia.
Qed.

(** ** The template loop of [parseLine] *)

Lemma gzgetc_cons (b : byte) (bs : list byte) (p f : bool) :
  gzgetc (mkGz (b :: bs) p f) = (int_of_byte b, mkGz bs p f).
Proof. reflexivity. Qed.

Lemma gzgetc_nil (p f : bool) :
  gzgetc (mkGz [] p f) = (EOF, mkGz [] (p || negb f) f).
Proof. destruct p, f; reflexivity. Qed.

(** The two trailing loops of [parseLine] are the [while] loops of the
    source: one [gzgetc] per test of the condition. *)
Lemma skip_rest_of_line_unfold (gf : gzFile) :
  skip_rest_of_line (data gf) (past gf) (failing gf) =
  let (ch, gf') := gzgetc gf in
  if negb (ch =? EOF) && negb (ch =? CR) && negb (ch =? LF)
  then skip_rest_of_line (data gf') (past gf') (failing gf')
  else (ch, gf').
Proof.
  destruct gf as [[|b bs] p f];
    cbn [data past failing skip_rest_of_line]; unfold gzgetc;
    cbn [data past failing].
  - reflexivity.
  - rewrite int_of_byte_not_EOF. cbn [negb andb].
    destruct (negb (int_of_byte b =? CR) && negb (int_of_byte b =? LF)); reflexivity.
Qed.

Lemma skip_terminators_unfold (gf : gzFile) :
  skip_terminators (data gf) (past gf) (failing gf) =
  let (ch, gf') := gzgetc gf in
  if negb (ch =? EOF) && ((ch =? CR) || (ch =? LF))
  then skip_terminators (data gf') (past gf') (failing gf')
  else (ch, gf').
Proof.
  destruct gf as [[|b bs] p f];
    cbn [data past failing skip_terminators]; unfold gzgetc;
    cbn [data past failing].
  - reflexivity.
  - rewrite int_of_byte_not_EOF. cbn [negb andb].
    destruct ((int_of_byte b =? CR) || (int_of_byte b =? LF)); reflexivity.
Qed.

Lemma field_tests (t : byte) :
  ((int_of_byte t =? ch_h) || (int_of_byte t =? ch_m) || (int_of_byte t =? ch_s))
  = is_field t
  /\ (int_of_byte t =? ch_h) = Byte.eqb t "h"
  /\ (int_of_byte t =? ch_m) = Byte.eqb t "m"
  /\ (int_of_byte t =? ch_s) = Byte.eqb t "s".
Proof.
  unfold is_field.
  change ch_h with (int_of_byte "h"). change ch_m with (int_of_byte "m").
  change ch_s with (int_of_byte "s").
  rewrite !int_of_byte_eqb. auto.
Qed.

(** What the template loop computes, in terms of the number of bytes that
    fit the template. *)
Lemma match_tag_spec (tg bs : list byte) :
  forall (p f : bool) (hour minute second : Z),
    match_tag tg (mkGz bs p f) hour minute second =
    if (matched_prefix tg bs =? List.length tg)%nat
    then (Some (accumulate tg bs hour minute second),
          mkGz (skipn (List.length tg) bs) p f)
    else (None,
          mkGz (skipn (S (matched_prefix tg bs)) bs)
               (p || (negb f && (List.length bs <=? matched_prefix tg bs)%nat))
               f).
Proof.
  revert bs. induction tg as [|t tg IH]; intros bs p f hour minute second.
  - cbn. destruct bs; reflexivity.
  - destruct bs as [|b bs].
    + cbn [match_tag]. rewrite gzgetc_nil. cbn. rewrite andb_true_r.
      reflexivity.
    + cbn [match_tag]. rewrite gzgetc_cons, int_of_byte_not_EOF.
      destruct (field_tests t) as (Hf & Hh & Hm & Hs).
      rewrite Hf, Hh, Hm. cbn [matched_prefix accumulate List.length].
      unfold slot_ok. fold (is_digit b). rewrite int_of_byte_eqb.
      destruct (is_field t) eqn:Ef.
      * destruct (is_digit b) eqn:Ed; cbn [negb].
        -- unfold is_field in Ef.
           fold (digit b).
           destruct (Byte.eqb t "h") eqn:E1; [rewrite IH; reflexivity|].
           destruct (Byte.eqb t "m") eqn:E2; [rewrite IH; reflexivity|].
           destruct (Byte.eqb t "s") eqn:E3; [rewrite IH; reflexivity|].
           discriminate.
        -- cbn. rewrite andb_false_r, orb_false_r. reflexivity.
      * unfold is_field in Ef.
        apply orb_false_iff in Ef. destruct Ef as [Ef E3].
        apply orb_false_iff in Ef. destruct Ef as [E1 E2].
        rewrite E1, E2, E3.
        destruct (Byte.eqb b t) eqn:Eb; cbn [negb].
        -- rewrite IH. reflexivity.
        -- cbn. rewrite andb_false_r, orb_false_r. reflexivity.
Qed.

Lemma matched_prefix_le_length (tg bs : list byte) :
  (matched_prefix tg bs <= List.length bs)%nat.
Proof.
  revert bs. induction tg as [|t tg IH]; intros [|b bs]; cbn; try lia.
  destruct (slot_ok t b); [specialize (IH bs)|]; lia.
Qed.

Lemma matched_prefix_le_tag (tg bs : list byte) :
  (matched_prefix tg bs <= List.length tg)%nat.
Proof.
  revert bs. induction tg as [|t tg IH]; intros [|b bs]; cbn; try lia.
  destruct (slot_ok t b); [specialize (IH bs)|]; lia.
Qed.

Lemma tag_eq : tag = ["["; "h"; "h"; ":"; "m"; "m"; ":"; "s"; "s"; "]"]%byte.
Proof. reflexivity. Qed.

Lemma tag_length : List.length tag = 10%nat.
Proof. reflexivity. Qed.

Lemma accumulate_h tg b bs h m s :
  accumulate ("h"%byte :: tg) (b :: bs) h m s = accumulate tg bs (h * 10 + digit b) m s.
Proof. reflexivity. Qed.

Lemma accumulate_m tg b bs h m s :
  accumulate ("m"%byte :: tg) (b :: bs) h m s = accumulate tg bs h (m * 10 + digit b) s.
Proof. reflexivity. Qed.

Lemma accumulate_s tg b bs h m s :
  accumulate ("s"%byte :: tg) (b :: bs) h m s = accumulate tg bs h m (s * 10 + digit b).
Proof. reflexivity. Qed.

Lemma accumulate_literal t tg b bs h m s :
  is_field t = false ->
  accumulate (t :: tg) (b :: bs) h m s = accumulate tg bs h m s.
Proof.
  unfold is_field. intros H.
  apply orb_false_iff in H. destruct H as [H H3].
  apply orb_false_iff in H. destruct H as [H1 H2].
  cbn [accumulate]. rewrite H1, H2, H3. reflexivity.
Qed.

Lemma matched_prefix_field t tg b bs :
  is_field t = true ->
  matched_prefix (t :: tg) (b :: bs) = if is_digit b then S (matched_prefix tg bs) else O.
Proof. intros H. cbn [matched_prefix]. unfold slot_ok. rewrite H. reflexivity. Qed.

Lemma matched_prefix_literal t tg b bs :
  is_field t = false ->
  matched_prefix (t :: tg) (b :: bs) = if Byte.eqb b t then S (matched_prefix tg bs) else O.
Proof. intros H. cbn [matched_prefix]. unfold slot_ok. rewrite H. reflexivity. Qed.

Ltac step_template :=
  repeat first
    [ rewrite accumulate_h | rewrite accumulate_m | rewrite accumulate_s
    | rewrite accumulate_literal by reflexivity
    | rewrite matched_prefix_field by reflexivity
    | rewrite matched_prefix_literal by reflexivity ].

(** The bytes that fit the whole template are exactly those that begin with
    a timestamp, and the accumulators then hold its three fields. *)
Lemma timestamp_fields_spec (bs : list byte) :
  timestamp_fields bs =
  if (matched_prefix tag bs =? 10)%nat then Some (accumulate tag bs 0 0 0) else None.
Proof.
  destruct (le_lt_dec 10 (List.length bs)) as [Hlen|Hlen].
  - do 10 (destruct bs as [|? bs]; [cbn in Hlen; lia|]).
    unfold timestamp_fields. rewrite tag_eq. step_template.
    unfold two_digits. rewrite !Z.mul_0_l, !Z.add_0_l.
    destruct (Byte.eqb b "["); [|reflexivity].
    destruct (is_digit b0); [|reflexivity].
    destruct (is_digit b1); [|reflexivity].
    destruct (Byte.eqb b2 ":"); [|reflexivity].
    destruct (is_digit b3); [|reflexivity].
    destruct (is_digit b4); [|reflexivity].
    destruct (Byte.eqb b5 ":"); [|reflexivity].
    destruct (is_digit b6); [|reflexivity].
    destruct (is_digit b7); [|reflexivity].
    destruct (Byte.eqb b8 "]"); reflexivity.
  - pose proof (matched_prefix_le_length tag bs) as Hk.
    replace (matched_prefix tag bs =? 10)%nat with false
      by (symmetry; apply Nat.eqb_neq; lia).
    unfold timestamp_fields.
    do 10 (destruct bs as [|? bs]; [reflexivity|]).
    cbn in Hlen. lia.
Qed.

Lemma timestamp_fields_range (bs : list byte) (h m s : Z) :
  timestamp_fields bs = Some (h, m, s) ->
  0 <= h <= 99 /\ 0 <= m <= 99 /\ 0 <= s <= 99.
Proof.
  unfold timestamp_fields.
  do 10 (destruct bs as [|? bs]; [discriminate|]).
  match goal with |- (if ?c then _ else _) = _ -> _ => destruct c eqn:E end;
    [|discriminate].
  intros H. injection H as <- <- <-.
  repeat (apply andb_true_iff in E; destruct E as [E ?]).
  unfold two_digits.
  repeat match goal with
         | H : is_digit _ = true |- _ => apply digit_range in H
         end.
  lia.
Qed.

(** ** The trailing loops of [parseLine] *)

Lemma terminator_tests (b : byte) :
  ((int_of_byte b =? CR) || (int_of_byte b =? LF)) = terminator b
  /\ (negb (int_of_byte b =? CR) && negb (int_of_byte b =? LF)) = negb (terminator b).
Proof.
  unfold terminator, is_terminator. split; [reflexivity|].
  rewrite negb_orb. reflexivity.
Qed.

Lemma skip_rest_of_line_stream (bs : list byte) (p f : bool) :
  snd (skip_rest_of_line bs p f) =
  mkGz (tl (drop_while (fun b => negb (terminator b)) bs))
       (if is_nil (drop_while (fun b => negb (terminator b)) bs)
        then p || negb f else p)
       f.
Proof.
  induction bs as [|b bs IH].
  - cbn [skip_rest_of_line]. rewrite gzgetc_nil. reflexivity.
  - cbn [skip_rest_of_line drop_while].
    destruct (terminator_tests b) as [_ ->].
    destruct (terminator b); cbn [negb]; [reflexivity|exact IH].
Qed.

Lemma skip_terminators_pushback (bs : list byte) (p f : bool) :
  (let (ch, gf3) := skip_terminators bs p f in
   if negb (ch =? EOF) then gzungetc ch gf3 else gf3)
  = mkGz (drop_while terminator bs)
         (is_nil (drop_while terminator bs) && (p || negb f)) f.
Proof.
  induction bs as [|b bs IH].
  - cbn [skip_terminators]. rewrite gzgetc_nil. reflexivity.
  - cbn [skip_terminators drop_while].
    destruct (terminator_tests b) as [-> _].
    destruct (terminator b); [exact IH|].
    rewrite int_of_byte_not_EOF. cbn [negb].
    unfold gzungetc. cbn [data failing is_nil andb].
    rewrite byte_of_int_of_byte. reflexivity.
Qed.

(** The two loops and the push-back together leave the stream at the start
    of the next line; when nothing is left, the end-of-file indicator is
    set unless the reads ended in an error. *)
Lemma trailing_skip (bs : list byte) (p f : bool) :
  (let (_, gf2) := skip_rest_of_line bs p f in
   let (ch, gf3) := skip_terminators (data gf2) (past gf2) (failing gf2) in
   if negb (ch =? EOF) then gzungetc ch gf3 else gf3)
  = mkGz (next_line_start bs)
         (is_nil (next_line_start bs) && (negb f || p)) f.
Proof.
  pose proof (skip_rest_of_line_stream bs p f) as Hd.
  destruct (skip_rest_of_line bs p f) as [c gf2]. cbn [snd] in Hd.
  rewrite Hd. cbn [data past failing]. rewrite skip_terminators_pushback.
  unfold next_line_start. f_equal.
  destruct (is_nil (drop_while (fun b => negb (terminator b)) bs));
    destruct p, f; reflexivity.
Qed.

Lemma tag_no_terminator : tag_has_no_terminator tag.
Proof.
  rewrite tag_eq. unfold tag_has_no_terminator.
  repeat constructor.
Qed.

Lemma slot_ok_not_terminator (t b : byte) :
  terminator t = false -> slot_ok t b = true -> terminator b = false.
Proof.
  unfold slot_ok. intros Ht H. destruct (is_field t).
  - apply digit_not_terminator. exact H.
  - apply Byte.byte_dec_bl in H. subst. exact Ht.
Qed.

(** The bytes that fit the template hold no line terminator, so the search
    for the end of the line may as well start after them. *)
Lemma drop_matched_prefix (tg bs : list byte) :
  tag_has_no_terminator tg ->
  drop_while (fun b => negb (terminator b)) bs =
  drop_while (fun b => negb (terminator b)) (skipn (matched_prefix tg bs) bs).
Proof.
  intros Htg. revert bs. induction Htg as [|t tg Ht Htg IH]; intros bs.
  - destruct bs; reflexivity.
  - destruct bs as [|b bs]; [reflexivity|].
    cbn [matched_prefix]. destruct (slot_ok t b) eqn:E; [|reflexivity].
    cbn [skipn drop_while].
    rewrite (slot_ok_not_terminator t b Ht E). cbn [negb]. apply IH.
Qed.

(** ** What one call of [parseLine] does *)

Lemma parseLine_spec (gf : gzFile) :
  parseLine gf =
  match timestamp_fields (data gf) with
  | Some f => (Some (seconds_of f), after_line gf)
  | None => (None, after_mismatch gf)
  end.
Proof.
  destruct gf as [bs p f]. unfold parseLine.
  rewrite match_tag_spec, timestamp_fields_spec, tag_length.
  cbn [data past failing].
  destruct (matched_prefix tag bs =? 10)%nat eqn:E.
  - apply Nat.eqb_eq in E.
    destruct (accumulate tag bs 0 0 0) as [[h m] s].
    cbn [data past failing seconds_of].
    pose proof (trailing_skip (skipn 10 bs) p f) as H.
    destruct (skip_rest_of_line (skipn 10 bs) p f) as [c gf2].
    destruct (skip_terminators (data gf2) (past gf2) (failing gf2)) as [ch gf3].
    cbv zeta. rewrite H. unfold after_line, next_line_start.
    cbn [data past failing].
    rewrite (drop_matched_prefix tag bs tag_no_terminator), E. reflexivity.
  - reflexivity.
Qed.

(** C3: a stream that begins with ['['], two digits, [':'], two digits,
    [':'], two digits, [']'] makes [parseLine] succeed with the timestamp
    [(h*60+m)*60+s], where [h], [m] and [s] are the decimal values of the
    three two-digit fields, each between 0 and 99; on every other stream (a
    non-digit in a digit slot, another character where a literal is
    expected, or the end of the stream before the template is complete)
    [parseLine] fails. *)
Theorem parseLine_timestamp (gf : gzFile) :
  fst (parseLine gf) = option_map seconds_of (timestamp_fields (data gf))
  /\ (forall h m s : Z,
        timestamp_fields (data gf) = Some (h, m, s) ->
        fst (parseLine gf) = Some ((h * 60 + m) * 60 + s)
        /\ 0 <= h <= 99 /\ 0 <= m <= 99 /\ 0 <= s <= 99)
  /\ (timestamp_fields (data gf) = None -> fst (parseLine gf) = None).
Proof.
  rewrite parseLine_spec. split; [|split].
  - destruct (timestamp_fields (data gf)); reflexivity.
  - intros h m s H. split.
    + rewrite H. reflexivity.
    + exact (timestamp_fields_range _ _ _ _ H).
  - intros H. rewrite H. reflexivity.
Qed.

Lemma parseLine_timestamp_witness :
  fst (parseLine (fresh (bytes "[12:34:56] [Server thread/INFO]: joined")))
  = Some ((12 * 60 + 34) * 60 + 56)
  /\ 0 <= 12 <= 99 /\ 0 <= 34 <= 99 /\ 0 <= 56 <= 99.
Proof.
  apply (proj1 (proj2 (parseLine_timestamp
           (fresh (bytes "[12:34:56] [Server thread/INFO]: joined"))))).
  reflexivity.
Defined.

(** C6, as the specification states it, fails: the hour field is not
    limited to 23, so [[24:00:00]] is scanned as 86400. *)
Lemma timestamp_exceeds_one_day :
  fst (parseLine (fresh (bytes "[24:00:00]"))) = Some 86400
  /\ ~ (0 <= 86400 <= 86399).
Proof.
  split; [reflexivity|lia].
Qed.

(** C6, amended: every timestamp produced by a successful [parseLine] match
    lies between 0 and 362439, the value of [[99:99:99]]. *)
Theorem timestamp_bound (gf : gzFile) (t : Z) :
  fst (parseLine gf) = Some t -> 0 <= t <= 362439.
Proof.
  rewrite parseLine_spec.
  destruct (timestamp_fields (data gf)) as [[[h m] s]|] eqn:E; [|discriminate].
  cbn [fst seconds_of]. intros H. injection H as <-.
  apply timestamp_fields_range in E. lia.
Qed.

Lemma timestamp_bound_witness :
  fst (parseLine (fresh (bytes "[99:99:99]"))) = Some 362439
  /\ 0 <= 362439 <= 362439.
Proof.
  split; [reflexivity|].
  apply (timestamp_bound (fresh (bytes "[99:99:99]")) 362439).
  reflexivity.
Defined.

(** C4, as the specification states it, fails: a failed match returns at
    once, so the stream is left inside the line, just after the byte that
    did not fit, and not at the start of the next line. *)
Lemma parseLine_failure_stays_in_line :
  let gf := fresh (bytes "abc" ++ [x0a] ++ bytes "[00:00:10] x") in
  fst (parseLine gf) = None
  /\ data (snd (parseLine gf)) = bytes "bc" ++ [x0a] ++ bytes "[00:00:10] x"
  /\ next_line_start (data gf) = bytes "[00:00:10] x"
  /\ data (snd (parseLine gf)) <> next_line_start (data gf).
Proof.
  cbv zeta. repeat split; try reflexivity.
  vm_compute. discriminate.
Qed.

(** C4, amended: after a successful match the stream is at the start of the
    next line (everything up to and including the next line terminator is
    consumed, the terminators that follow directly are absorbed, the first
    byte of the next line is still in the stream, and reaching the end of
    the stream on the way is not an error: on a stream read to its end the
    end-of-file indicator is set exactly when nothing is left).  After a
    failed match no line is skipped: the stream is left just after the byte
    that did not fit the template, or at its end when the template was cut
    short.  (On a stream whose reads end in an error the indicator is never
    set by [parseLine]; it is cleared when a byte is pushed back.) *)
Theorem parseLine_cursor (gf : gzFile) :
  match fst (parseLine gf) with
  | Some _ =>
      data (snd (parseLine gf)) = next_line_start (data gf)
      /\ past (snd (parseLine gf))
         = (is_nil (next_line_start (data gf)) && (negb (failing gf) || past gf))
      /\ failing (snd (parseLine gf)) = failing gf
  | None =>
      let k := matched_prefix tag (data gf) in
      (k < 10)%nat
      /\ data (snd (parseLine gf)) = skipn (S k) (data gf)
      /\ past (snd (parseLine gf))
         = (past gf || (negb (failing gf) && (List.length (data gf) <=? k)%nat))
      /\ failing (snd (parseLine gf)) = failing gf
  end.
Proof.
  rewrite parseLine_spec.
  pose proof (timestamp_fields_spec (data gf)) as Hs.
  destruct (timestamp_fields (data gf)) as [f|]; cbn [fst snd].
  - repeat split; reflexivity.
  - cbv zeta. split; [|repeat split; reflexivity].
    pose proof (matched_prefix_le_tag tag (data gf)) as Hle.
    rewrite tag_length in Hle.
    destruct (matched_prefix tag (data gf) =? 10)%nat eqn:E; [discriminate|].
    apply Nat.eqb_neq in E. lia.
Qed.

(** ** Progress *)

Lemma drop_while_length (f : byte -> bool) (bs : list byte) :
  (List.length (drop_while f bs) <= List.length bs)%nat.
Proof.
  induction bs as [|b bs IH]; cbn; [lia|].
  destruct (f b); cbn; lia.
Qed.

Lemma next_line_start_length (bs : list byte) :
  (List.length (next_line_start bs) <= List.length (tl bs))%nat.
Proof.
  unfold next_line_start.
  etransitivity; [apply drop_while_length|].
  destruct bs as [|b bs]; cbn [drop_while tl]; [cbn; lia|].
  destruct (negb (terminator b)).
  - pose proof (drop_while_length (fun b => negb (terminator b)) bs).
    destruct (drop_while (fun b0 => negb (terminator b0)) bs); cbn in *; lia.
  - cbn. lia.
Qed.

(** [parseLine] leaves the error flag of the stream as it is. *)
Lemma parseLine_failing (gf : gzFile) :
  failing (snd (parseLine gf)) = failing gf.
Proof.
  rewrite parseLine_spec.
  destruct (timestamp_fields (data gf)); reflexivity.
Qed.

(** Every call of [parseLine] on a stream that is read to its end, and whose
    end has not been observed yet, either observes it or leaves fewer bytes
    unread. *)
Lemma parseLine_progress (gf : gzFile) :
  failing gf = false ->
  past gf = false ->
  (measure (snd (parseLine gf)) < measure gf)%nat.
Proof.
  intros Hf Hp. rewrite parseLine_spec. unfold measure. rewrite Hp.
  destruct (timestamp_fields (data gf)) as [f|] eqn:E; cbn [snd].
  - unfold after_line. cbn [data past]. rewrite Hf. cbn [negb orb]. rewrite andb_true_r.
    pose proof (next_line_start_length (data gf)) as Hl.
    destruct (data gf) as [|b bs]; [discriminate|].
    cbn [tl List.length] in *.
    destruct (next_line_start (b :: bs)); cbn [is_nil List.length] in *; lia.
  - unfold after_mismatch. cbn [data past]. rewrite Hp, Hf. cbn [orb negb andb].
    pose proof (matched_prefix_le_length tag (data gf)) as Hk.
    rewrite length_skipn.
    destruct (List.length (data gf) <=? matched_prefix tag (data gf))%nat eqn:El.
    + apply Nat.leb_le in El. lia.
    + apply Nat.leb_gt in El. lia.
Qed.

(** ** The two loops of [parseFile] *)

Lemma measure_fresh (content : list byte) :
  measure (fresh content) = S (List.length content).
Proof. unfold measure, fresh. cbn. lia. Qed.

Lemma measure_not_past (gf : gzFile) : past gf = false -> (1 <= measure gf)%nat.
Proof. unfold measure. intros ->. lia. Qed.

Lemma measure_zero (gf : gzFile) : measure gf = O -> past gf = true.
Proof. unfold measure. destruct (past gf); [reflexivity|lia]. Qed.

Lemma scans_past (fuel : nat) (gf : gzFile) : past gf = true -> scans fuel gf = [].
Proof. intros H. destruct fuel; cbn; [reflexivity|]. rewrite H. reflexivity. Qed.

Lemma last_cons_default (l : list Z) :
  forall t e : Z, last (t :: l) e = last l t.
Proof.
  induction l as [|x l IH]; intros t e; [reflexivity|].
  change (last (t :: x :: l) e) with (last (x :: l) e).
  rewrite (IH x e), (IH x t). reflexivity.
Qed.

(** Any fuel that covers the measure of the stream gives the same scan. *)
Lemma scans_fuel (fuel1 : nat) :
  forall (fuel2 : nat) (gf : gzFile),
    failing gf = false ->
    (measure gf <= fuel1)%nat -> (measure gf <= fuel2)%nat ->
    scans fuel1 gf = scans fuel2 gf.
Proof.
  induction fuel1 as [|f1 IH]; intros fuel2 gf Hf H1 H2.
  - assert (measure gf = O) as Hm by lia. apply measure_zero in Hm.
    rewrite !scans_past by exact Hm. reflexivity.
  - destruct fuel2 as [|f2].
    + assert (measure gf = O) as Hm by lia. apply measure_zero in Hm.
      rewrite !scans_past by exact Hm. reflexivity.
    + cbn [scans]. destruct (past gf) eqn:Hp; [reflexivity|].
      pose proof (parseLine_progress gf Hf Hp) as Hlt.
      pose proof (parseLine_failing gf) as Hf1. rewrite Hf in Hf1.
      destruct (parseLine gf) as [[t|] gf1]; cbn [snd] in Hlt, Hf1.
      * f_equal. apply IH; [exact Hf1|lia|lia].
      * apply IH; [exact Hf1|lia|lia].
Qed.

(** The second loop ends with the last timestamp scanned. *)
Lemma find_end_scans (fuel : nat) :
  forall (gf : gzFile) (e : Z) (fuel2 : nat),
    failing gf = false ->
    (measure gf < fuel)%nat -> (measure gf <= fuel2)%nat ->
    exists gf', find_end fuel gf e = Some (last (scans fuel2 gf) e, gf').
Proof.
  induction fuel as [|f IH]; intros gf e fuel2 Hf H1 H2; [lia|].
  cbn [find_end]. unfold gzeof. destruct (past gf) eqn:Hp; cbn.
  - rewrite scans_past by exact Hp. exists gf. reflexivity.
  - pose proof (measure_not_past gf Hp) as Hm.
    destruct fuel2 as [|f2]; [lia|].
    cbn [scans]. rewrite Hp.
    pose proof (parseLine_progress gf Hf Hp) as Hlt.
    pose proof (parseLine_failing gf) as Hf1. rewrite Hf in Hf1.
    destruct (parseLine gf) as [[t|] gf1]; cbn [snd] in Hlt, Hf1.
    + rewrite last_cons_default. apply IH; [exact Hf1|lia|lia].
    + apply IH; [exact Hf1|lia|lia].
Qed.

(** The first loop ends with the first timestamp scanned, or with
    [return 2] when there is none. *)
Lemma find_start_scans (fuel : nat) :
  forall (gf : gzFile) (fuel2 : nat),
    failing gf = false ->
    past gf = false ->
    (measure gf <= fuel)%nat -> (measure gf <= fuel2)%nat ->
    match scans fuel2 gf with
    | [] => find_start fuel gf = Some None
    | t :: rest =>
        exists gf1,
          find_start fuel gf = Some (Some (t, gf1))
          /\ failing gf1 = false
          /\ (measure gf1 < measure gf)%nat
          /\ forall fuel3, (measure gf1 <= fuel3)%nat -> rest = scans fuel3 gf1
    end.
Proof.
  induction fuel as [|f IH]; intros gf fuel2 Hf Hp H1 H2.
  - pose proof (measure_not_past gf Hp). lia.
  - pose proof (measure_not_past gf Hp) as Hm.
    destruct fuel2 as [|f2]; [lia|].
    cbn [scans find_start]. rewrite Hp.
    pose proof (parseLine_progress gf Hf Hp) as Hlt.
    pose proof (parseLine_failing gf) as Hf1. rewrite Hf in Hf1.
    destruct (parseLine gf) as [[t|] gf1]; cbn [snd] in Hlt, Hf1.
    + exists gf1. split; [reflexivity|]. split; [exact Hf1|]. split; [exact Hlt|].
      intros fuel3 H3. apply scans_fuel; [exact Hf1|lia|lia].
    + unfold gzeof. destruct (past gf1) eqn:Hp1; cbn.
      * rewrite scans_past by exact Hp1. reflexivity.
      * specialize (IH gf1 f2 Hf1 Hp1 ltac:(lia) ltac:(lia)).
        destruct (scans f2 gf1) as [|t rest]; [exact IH|].
        destruct IH as (gf2 & Hs & Hf2 & Hlt2 & Hrest).
        exists gf2. split; [exact Hs|]. split; [exact Hf2|]. split; [lia|exact Hrest].
Qed.

(** ** [parseFile] in the process *)

Lemma set_open_gz_restore (w : world) :
  set_open_gz (set_open_gz w (S (open_gz w))) (pred (S (open_gz w))) = w.
Proof. destruct w. reflexivity. Qed.

(** What [parseFile] returns and what it leaves behind for a file that
    [gzopen] can open: the stream is closed again exactly when a timestamp
    was found. *)
Lemma parseFile_opened (w : world) (path : string) (content : list byte) :
  node_at w path = Some (Reg true content) ->
  parseFile path w =
  Ret (parse_content content)
      (if is_nil (timestamps content)
       then set_open_gz w (S (open_gz w))
       else w).
Proof.
  intros Hn. unfold parseFile, bind, gzopen. rewrite Hn.
  change (data (fresh content)) with content.
  pose proof (find_start_scans (fuel_for content) (fresh content) (fuel_for content)
                eq_refl eq_refl) as Hs.
  rewrite measure_fresh in Hs. unfold fuel_for in Hs at 1 2.
  specialize (Hs ltac:(lia) ltac:(lia)).
  unfold parse_content. fold (timestamps content) in Hs.
  destruct (timestamps content) as [|t rest] eqn:Et.
  - rewrite Hs. reflexivity.
  - destruct Hs as (gf1 & Hs & Hf1 & Hlt & Hrest). rewrite Hs. cbn [fuelled].
    destruct (find_end_scans (fuel_for content) gf1 t (fuel_for content))
      as [gf2 He]; [exact Hf1 | unfold fuel_for; lia | unfold fuel_for; lia |].
    rewrite He. cbn [fuelled]. unfold gzclose, ret. cbn [open_gz set_open_gz].
    rewrite <- (Hrest (fuel_for content)) by (unfold fuel_for; lia).
    cbn [is_nil]. unfold duration_of. rewrite last_cons_default. cbn [hd].
    f_equal. destruct w. reflexivity.
Qed.

Lemma parseFile_not_opened (w : world) (path : string) :
  gzopen path w = Ret None w ->
  parseFile path w = Ret SystemFailure w.
Proof.
  intros Hn. unfold parseFile, bind. rewrite Hn. reflexivity.
Qed.

(** *** Streams whose reads end in an error *)

(** On a stream whose reads end in an error, [parseLine] never sets the
    end-of-file indicator. *)
Lemma parseLine_broken (gf : gzFile) :
  failing gf = true -> past gf = false ->
  failing (snd (parseLine gf)) = true /\ past (snd (parseLine gf)) = false.
Proof.
  intros Hf Hp. rewrite parseLine_spec.
  destruct (timestamp_fields (data gf)); cbn [snd].
  - unfold after_line. cbn [failing past]. rewrite Hf, Hp.
    split; [reflexivity|]. cbn. apply andb_false_r.
  - unfold after_mismatch. cbn [failing past]. rewrite Hf, Hp.
    split; reflexivity.
Qed.

(** The second loop of [parseFile] does not end on such a stream, whatever
    the fuel. *)
Lemma find_end_broken (fuel : nat) :
  forall (gf : gzFile) (e : Z),
    failing gf = true -> past gf = false -> find_end fuel gf e = None.
Proof.
  induction fuel as [|f IH]; intros gf e Hf Hp; [reflexivity|].
  cbn [find_end]. unfold gzeof. rewrite Hp. cbn.
  destruct (parseLine_broken gf Hf Hp) as [Hf1 Hp1].
  destruct (parseLine gf) as [[t|] gf1]; cbn [snd] in Hf1, Hp1; apply IH; assumption.
Qed.

(** The first loop never takes its [return 2] on such a stream, and when it
    ends, it leaves a stream of the same kind. *)
Lemma find_start_broken (fuel : nat) :
  forall gf : gzFile,
    failing gf = true -> past gf = false ->
    match find_start fuel gf with
    | Some None => False
    | Some (Some (_, gf1)) => failing gf1 = true /\ past gf1 = false
    | None => True
    end.
Proof.
  induction fuel as [|f IH]; intros gf Hf Hp; [exact I|].
  cbn [find_start].
  destruct (parseLine_broken gf Hf Hp) as [Hf1 Hp1].
  destruct (parseLine gf) as [[t|] gf1]; cbn [snd] in Hf1, Hp1.
  - split; assumption.
  - unfold gzeof. rewrite Hp1. cbn. apply IH; assumption.
Qed.

(** The loops of [parseFile] on a stream whose reads end in an error:
    whatever the fuel, the first one does not take its [return 2], and the
    second one does not end after the first one has. *)
Lemma parseFile_never_returns (gf : gzFile) :
  failing gf = true -> past gf = false ->
  forall fuel : nat,
    find_start fuel gf <> Some None
    /\ forall (start : Z) (gf1 : gzFile),
         find_start fuel gf = Some (Some (start, gf1)) ->
         forall (fuel' : nat), find_end fuel' gf1 start = None.
Proof.
  intros Hf Hp fuel. pose proof (find_start_broken fuel gf Hf Hp) as H.
  split.
  - intros E. rewrite E in H. exact H.
  - intros start gf1 E fuel'. rewrite E in H. destruct H as [Hf1 Hp1].
    apply find_end_broken; assumption.
Qed.

(** [parseFile] on a file that opens and whose reads end in an error. *)
Lemma parseFile_broken (w : world) (path : string) (content : list byte) :
  gzopen path w = Ret (Some (broken content)) (set_open_gz w (S (open_gz w))) ->
  parseFile path w = Spin.
Proof.
  intros Hn. unfold parseFile, bind. rewrite Hn.
  pose proof (find_start_broken (fuel_for (data (broken content))) (broken content)
                eq_refl eq_refl) as H.
  destruct (find_start (fuel_for (data (broken content))) (broken content))
    as [[[start gf1]|]|]; cbn [fuelled].
  - destruct H as [Hf1 Hp1].
    rewrite (find_end_broken _ gf1 start Hf1 Hp1). reflexivity.
  - destruct H.
  - reflexivity.
Qed.

Lemma parseFile_endless (w : world) (path : string) :
  file_outcome w path = None -> parseFile path w = Spin.
Proof.
  unfold file_outcome. intros H.
  destruct (node_at w path) as [[[|] c|[|] c|s [|] e|]|] eqn:E; try discriminate.
  - apply (parseFile_broken w path c). unfold gzopen. rewrite E. reflexivity.
  - apply (parseFile_broken w path []). unfold gzopen. rewrite E. reflexivity.
Qed.

(** ** Scanning a file line by line *)

Lemma ends_at_eol_tl (bs : list byte) :
  ends_at_eol bs = true -> ends_at_eol (tl bs) = true.
Proof.
  destruct bs as [|b [|b' bs]]; cbn [tl]; intros H; try reflexivity. exact H.
Qed.

Lemma ends_at_eol_skipn (n : nat) :
  forall bs, ends_at_eol bs = true -> ends_at_eol (skipn n bs) = true.
Proof.
  induction n as [|n IH]; intros bs H; [exact H|].
  destruct bs as [|b bs]; [reflexivity|].
  cbn [skipn]. apply IH. exact (ends_at_eol_tl (b :: bs) H).
Qed.

Lemma ends_at_eol_drop_while (f : byte -> bool) (bs : list byte) :
  ends_at_eol bs = true -> ends_at_eol (drop_while f bs) = true.
Proof.
  induction bs as [|b bs IH]; intros H; [reflexivity|].
  cbn [drop_while]. destruct (f b); [|exact H].
  apply IH. exact (ends_at_eol_tl (b :: bs) H).
Qed.

Lemma ends_at_eol_next_line_start (bs : list byte) :
  ends_at_eol bs = true -> ends_at_eol (next_line_start bs) = true.
Proof.
  intros H. unfold next_line_start.
  apply ends_at_eol_drop_while, ends_at_eol_tl, ends_at_eol_drop_while, H.
Qed.

Lemma ends_at_eol_app (a b : list byte) :
  b <> [] -> ends_at_eol (a ++ b) = ends_at_eol b.
Proof.
  intros Hb. induction a as [|x a IH]; [reflexivity|].
  cbn [app ends_at_eol]. destruct (a ++ b) eqn:E; [|exact IH].
  destruct a; [cbn in E; contradiction|discriminate].
Qed.

Lemma ends_at_eol_line (text : list byte) : ends_at_eol (line text) = true.
Proof.
  unfold line. rewrite ends_at_eol_app by discriminate. reflexivity.
Qed.

Lemma ends_at_eol_file_of_lines (ls : list (list byte)) :
  ends_at_eol (file_of_lines ls) = true.
Proof.
  induction ls as [|l ls IH]; [reflexivity|].
  unfold file_of_lines in *. cbn [map List.concat].
  destruct (List.concat (map line ls)) eqn:E.
  - rewrite app_nil_r. apply ends_at_eol_line.
  - rewrite ends_at_eol_app by discriminate. exact IH.
Qed.

(** Up to the end of a line, the search for a terminator does not look at
    what follows the line. *)
Lemma drop_nonterminators_app (junk fin : list byte) :
  junk <> [] -> ends_at_eol junk = true ->
  drop_while (fun b => negb (terminator b)) (junk ++ fin)
  = drop_while (fun b => negb (terminator b)) junk ++ fin
  /\ drop_while (fun b => negb (terminator b)) junk <> [].
Proof.
  induction junk as [|b junk IH]; intros Hne He; [contradiction|].
  cbn [app drop_while].
  destruct (terminator b) eqn:Et; cbn [negb].
  - split; [reflexivity|discriminate].
  - destruct junk as [|b' junk].
    + cbn in He. congruence.
    + apply IH; [discriminate|exact He].
Qed.

Lemma drop_terminators_app (x fin : list byte) (b : byte) :
  terminator b = false ->
  drop_while terminator (x ++ b :: fin) = drop_while terminator x ++ b :: fin.
Proof.
  intros Hb. induction x as [|c x IH]; cbn [app drop_while].
  - rewrite Hb. reflexivity.
  - destruct (terminator c); [exact IH|reflexivity].
Qed.

Lemma next_line_start_app (junk fin : list byte) (b : byte) :
  junk <> [] -> ends_at_eol junk = true -> terminator b = false ->
  next_line_start (junk ++ b :: fin) = next_line_start junk ++ b :: fin.
Proof.
  intros Hne He Hb. unfold next_line_start.
  destruct (drop_nonterminators_app junk (b :: fin) Hne He) as [-> Hd].
  destruct (drop_while (fun b0 => negb (terminator b0)) junk) as [|c d];
    [contradiction|].
  cbn [app tl]. apply drop_terminators_app. exact Hb.
Qed.

(** A failed match inside a line stops at the end of that line at the
    latest: a terminator fits no position of the template. *)
Lemma matched_prefix_within_line (tg : list byte) :
  tag_has_no_terminator tg ->
  forall junk fin,
    junk <> [] -> ends_at_eol junk = true ->
    (matched_prefix tg (junk ++ fin) < List.length junk)%nat.
Proof.
  induction 1 as [|t tg Ht Htg IH]; intros junk fin Hne He.
  - destruct junk; [contradiction|]. cbn. lia.
  - destruct junk as [|b junk]; [contradiction|].
    cbn [app matched_prefix List.length].
    destruct (slot_ok t b) eqn:Es; [|lia].
    pose proof (slot_ok_not_terminator t b Ht Es) as Hb.
    destruct junk as [|b' junk].
    + cbn in He. congruence.
    + specialize (IH (b' :: junk) fin ltac:(discriminate) He).
      cbn [List.length] in *. lia.
Qed.

Lemma timestamp_fields_head (bs : list byte) (f : Z * Z * Z) :
  timestamp_fields bs = Some f ->
  exists b rest, bs = b :: rest /\ terminator b = false.
Proof.
  unfold timestamp_fields.
  do 10 (destruct bs as [|? bs]; [discriminate|]).
  destruct (Byte.eqb b "[") eqn:E; [|discriminate].
  intros _. apply Byte.byte_dec_bl in E. subst.
  eexists. eexists. split; reflexivity.
Qed.

(** However the lines before it are scanned, a line that begins with a
    timestamp and ends the file provides the last timestamp of the scan. *)
Lemma scans_last_line (n : nat) :
  forall (junk fin : list byte) (f : Z * Z * Z) (fuel : nat) (d : Z),
    (List.length junk <= n)%nat ->
    ends_at_eol junk = true ->
    timestamp_fields fin = Some f ->
    next_line_start fin = [] ->
    (measure (fresh (junk ++ fin)) <= fuel)%nat ->
    last (scans fuel (fresh (junk ++ fin))) d = seconds_of f.
Proof.
  unfold fresh.
  induction n as [|n IH]; intros junk fin f fuel d Hn He Hf Hfin Hfuel.
  - destruct junk; [|cbn in Hn; lia]. cbn [app] in *.
    destruct fuel as [|fuel]; [unfold measure in Hfuel; cbn in Hfuel; lia|].
    cbn [scans past]. rewrite parseLine_spec. cbn [data]. rewrite Hf.
    unfold after_line. cbn [data]. rewrite Hfin. cbn [is_nil].
    rewrite scans_past by reflexivity. reflexivity.
  - destruct junk as [|j junk'] eqn:Ej.
    + apply (IH [] fin f fuel d); cbn; auto; lia.
    + rewrite <- Ej in *.
      assert (junk <> []) as Hne by (subst; discriminate).
      destruct (timestamp_fields_head fin f Hf) as (b & rest & -> & Hb).
      pose proof (parseLine_progress (mkGz (junk ++ b :: rest) false false)
                    eq_refl eq_refl) as Hp.
      destruct fuel as [|fuel]; [unfold measure in Hfuel; cbn in Hfuel; lia|].
      cbn [scans past]. rewrite parseLine_spec in *. cbn [data] in *.
      assert (List.length junk = S (List.length junk')) as Hlen
          by (subst; reflexivity).
      destruct (timestamp_fields (junk ++ b :: rest)) as [f'|]; cbn [snd] in Hp.
      * unfold after_line in *. cbn [data past failing negb orb] in *.
        rewrite andb_true_r in *.
        rewrite (next_line_start_app junk rest b Hne He Hb) in *.
        replace (is_nil (next_line_start junk ++ b :: rest)) with false in *
          by (destruct (next_line_start junk); reflexivity).
        rewrite last_cons_default.
        apply IH; auto.
        -- pose proof (next_line_start_length junk).
           rewrite Ej in *. cbn [tl List.length] in *. lia.
        -- apply ends_at_eol_next_line_start. exact He.
        -- lia.
      * unfold after_mismatch in *. cbn [data past failing negb andb orb] in *.
        pose proof (matched_prefix_within_line tag tag_no_terminator junk
                      (b :: rest) Hne He) as Hk.
        set (k := matched_prefix tag (junk ++ b :: rest)) in *.
        rewrite skipn_app in *.
        replace (S k - List.length junk)%nat with O in * by lia.
        change (skipn 0 (b :: rest)) with (b :: rest) in *.
        replace (List.length (junk ++ b :: rest) <=? k)%nat with false in *
          by (symmetry; apply Nat.leb_gt; rewrite length_app; lia).
        apply IH; auto.
        -- rewrite length_skipn. lia.
        -- apply ends_at_eol_skipn. exact He.
        -- lia.
Qed.

Lemma timestamps_head (content : list byte) (f : Z * Z * Z) :
  timestamp_fields content = Some f ->
  exists rest, timestamps content = seconds_of f :: rest.
Proof.
  intros Hf. unfold timestamps, fuel_for, fresh.
  replace (List.length content + 2)%nat with (S (S (List.length content))) by lia.
  cbn [scans fresh past]. rewrite parseLine_spec. cbn [data]. rewrite Hf.
  eexists. reflexivity.
Qed.

Lemma next_line_start_line (text : list byte) :
  Forall (fun b => terminator b = false) text ->
  next_line_start (line text) = [].
Proof.
  unfold next_line_start, line. induction 1 as [|b text Hb Ht IH].
  - reflexivity.
  - cbn [app drop_while]. rewrite Hb. cbn [negb]. exact IH.
Qed.

Lemma file_of_lines_snoc (a : list byte) (mids : list (list byte)) (z : list byte) :
  file_of_lines (a :: mids ++ [z]) = (line a ++ file_of_lines mids) ++ line z.
Proof.
  unfold file_of_lines. cbn [map List.concat].
  rewrite map_app, concat_app. cbn [map List.concat].
  rewrite app_nil_r, app_assoc. reflexivity.
Qed.

Lemma scans_no_timestamp (fuel : nat) :
  forall (bs : list byte) (p f : bool),
    no_timestamp_anywhere bs -> scans fuel (mkGz bs p f) = [].
Proof.
  induction fuel as [|fuel IH]; intros bs p f Hno; [reflexivity|].
  cbn [scans past]. destruct p; [reflexivity|].
  rewrite parseLine_spec. cbn [data].
  rewrite (Hno O : timestamp_fields bs = None).
  unfold after_mismatch. cbn [data past failing]. apply IH.
  intros n. rewrite skipn_skipn. apply Hno.
Qed.

Lemma timestamp_fields_app (bs rest : list byte) (f : Z * Z * Z) :
  timestamp_fields bs = Some f -> timestamp_fields (bs ++ rest) = Some f.
Proof.
  unfold timestamp_fields.
  do 10 (destruct bs as [|? bs]; [discriminate|]).
  intros H. exact H.
Qed.

Lemma no_timestamp_skipn (n : nat) (bs : list byte) :
  no_timestamp_anywhere bs -> no_timestamp_anywhere (skipn n bs).
Proof. intros H m. rewrite skipn_skipn. apply H. Qed.

Lemma drop_while_skipn (f : byte -> bool) (bs : list byte) :
  exists n, drop_while f bs = skipn n bs.
Proof.
  induction bs as [|b bs [n IH]]; [exists O; reflexivity|].
  cbn [drop_while]. destruct (f b).
  - exists (S n). exact IH.
  - exists O. reflexivity.
Qed.

(** What follows a failed match does not change how far it got, unless the
    bytes ran out. *)
Lemma matched_prefix_app (tg : list byte) :
  forall bs rest : list byte,
    (matched_prefix tg bs < List.length bs)%nat ->
    matched_prefix tg (bs ++ rest) = matched_prefix tg bs.
Proof.
  induction tg as [|t tg IH]; intros bs rest H.
  - destruct bs; reflexivity.
  - destruct bs as [|b bs]; [cbn in H; lia|].
    cbn [app matched_prefix List.length] in *.
    destruct (slot_ok t b); [|reflexivity].
    f_equal. apply IH. lia.
Qed.

(** No timestamp begins inside complete lines that hold none, whatever
    follows them: a timestamp holds no line terminator. *)
Lemma timestamp_fields_within_lines (junk fin : list byte) :
  junk <> [] -> ends_at_eol junk = true ->
  timestamp_fields junk = None -> timestamp_fields (junk ++ fin) = None.
Proof.
  intros Hne He. rewrite !timestamp_fields_spec.
  pose proof (matched_prefix_within_line tag tag_no_terminator junk [] Hne He) as Hk.
  rewrite app_nil_r in Hk.
  rewrite (matched_prefix_app tag junk fin Hk).
  destruct (matched_prefix tag junk =? 10)%nat; [discriminate|reflexivity].
Qed.

(** Complete lines that hold no timestamp at any offset add nothing to the
    scan of what follows them. *)
Lemma scans_skip_lines (n : nat) :
  forall (junk fin : list byte) (fuel : nat),
    (List.length junk <= n)%nat ->
    ends_at_eol junk = true ->
    no_timestamp_anywhere junk ->
    (measure (fresh (junk ++ fin)) <= fuel)%nat ->
    scans fuel (fresh (junk ++ fin)) = scans fuel (fresh fin).
Proof.
  unfold fresh.
  induction n as [|n IH]; intros junk fin fuel Hn He Hno Hfuel.
  - destruct junk; [reflexivity|cbn in Hn; lia].
  - destruct junk as [|j junk'] eqn:Ej; [reflexivity|].
    rewrite <- Ej in *.
    assert (junk <> []) as Hne by (subst; discriminate).
    assert (1 <= List.length junk)%nat as Hlen by (subst; cbn; lia).
    unfold measure in Hfuel. cbn [data past] in Hfuel. rewrite length_app in Hfuel.
    destruct fuel as [|fuel]; [lia|].
    transitivity (scans fuel (mkGz fin false false)).
    2: { apply scans_fuel; [reflexivity| |]; unfold measure; cbn [data past]; lia. }
    cbn [scans past]. rewrite parseLine_spec. cbn [data].
    rewrite (timestamp_fields_within_lines junk fin Hne He (Hno O)).
    unfold after_mismatch. cbn [data past failing negb andb orb].
    pose proof (matched_prefix_within_line tag tag_no_terminator junk fin Hne He)
      as Hk.
    set (k := matched_prefix tag (junk ++ fin)) in *.
    rewrite skipn_app.
    replace (S k - List.length junk)%nat with O by lia.
    change (skipn 0 fin) with fin.
    replace (List.length (junk ++ fin) <=? k)%nat with false
      by (symmetry; apply Nat.leb_gt; rewrite length_app; lia).
    apply IH.
    + rewrite length_skipn. lia.
    + apply ends_at_eol_skipn. exact He.
    + apply no_timestamp_skipn. exact Hno.
    + unfold measure. cbn [data past]. rewrite length_app, length_skipn. lia.
Qed.

Lemma next_line_start_line_app (text rest : list byte) :
  Forall (fun b => terminator b = false) text ->
  next_line_start (line text ++ rest) = drop_while terminator rest.
Proof.
  unfold next_line_start, line. induction 1 as [|b text Hb Ht IH].
  - reflexivity.
  - cbn [app drop_while]. rewrite Hb. cbn [negb]. exact IH.
Qed.

Lemma file_of_lines_app (a b : list (list byte)) :
  file_of_lines (a ++ b) = file_of_lines a ++ file_of_lines b.
Proof. unfold file_of_lines. rewrite map_app, concat_app. reflexivity. Qed.

(** A file with one line that begins with a timestamp, and no timestamp at
    any offset of the lines before it and of the lines after it: exactly
    one scan succeeds. *)
Lemma timestamps_one_line
    (pre : list (list byte)) (v : list byte) (post : list (list byte))
    (f : Z * Z * Z) :
  timestamp_fields v = Some f ->
  Forall (fun b => terminator b = false) v ->
  no_timestamp_anywhere (file_of_lines pre) ->
  no_timestamp_anywhere (file_of_lines post) ->
  timestamps (file_of_lines (pre ++ v :: post)) = [seconds_of f].
Proof.
  intros Hv Hterm Hpre Hpost. unfold timestamps.
  rewrite file_of_lines_app at 2.
  change (file_of_lines (v :: post)) with (line v ++ file_of_lines post).
  rewrite (scans_skip_lines (List.length (file_of_lines pre))
             (file_of_lines pre) (line v ++ file_of_lines post)).
  - unfold fuel_for.
    replace (List.length (file_of_lines (pre ++ v :: post)) + 2)%nat
      with (S (S (List.length (file_of_lines (pre ++ v :: post))))) by lia.
    remember (S (List.length (file_of_lines (pre ++ v :: post)))) as m.
    unfold fresh. cbn [scans past]. rewrite parseLine_spec. cbn [data].
    unfold line at 1. rewrite <- app_assoc.
    rewrite (timestamp_fields_app v _ f Hv).
    unfold after_line. cbn [data past failing].
    rewrite (next_line_start_line_app v _ Hterm).
    destruct (drop_while_skipn terminator (file_of_lines post)) as [n ->].
    rewrite scans_no_timestamp; [reflexivity|].
    apply no_timestamp_skipn. exact Hpost.
  - lia.
  - apply ends_at_eol_file_of_lines.
  - exact Hpre.
  - change (line v ++ file_of_lines post) with (file_of_lines (v :: post)).
    rewrite <- file_of_lines_app.
    unfold measure, fuel_for, fresh. cbn [data past]. lia.
Qed.

(** C2 fails on the code: a file in which one line begins with a timestamp,
    and the only other line does not, gives a duration that is not 0.  The
    line that fails to scan holds a timestamp inside, and the scans that
    follow the failed one resume inside that line and find it. *)
Lemma one_valid_line_nonzero_duration :
  node_at inside_world "one.log"
  = Some (Reg true (file_of_lines [ bytes "[12:00:00] start";
                                    bytes "java.lang.X: at [12:30:00] tick" ]))
  /\ timestamp_fields (bytes "[12:00:00] start") = Some (12, 0, 0)
  /\ timestamp_fields (bytes "java.lang.X: at [12:30:00] tick") = None
  /\ parseFile "one.log" inside_world = Ret (Parsed 1800) inside_world
  /\ 1800 <> 0.
Proof.
  repeat split; try reflexivity. discriminate.
Qed.

(** C2, amended: for a file that [parseFile] opens and reads to its end, and
    in which some scan yields a timestamp, the duration returned is the
    last scanned timestamp minus the first one, failed scans in between
    leaving it untouched; a file in which exactly one scan succeeds yields
    0, and so does a file with one line that begins with a timestamp when
    no timestamp begins at any offset of its other lines; a file whose
    first line begins with [[00:00:10]] and whose last line begins with
    [[00:01:00]] yields 50, whatever lines lie between them. *)
Theorem parseFile_duration (w : world) (path : string) (content : list byte) :
  node_at w path = Some (Reg true content) ->
  (timestamps content <> [] ->
   parseFile path w
   = Ret (Parsed (last (timestamps content) 0 - hd 0 (timestamps content))) w)
  /\ (forall t : Z,
        timestamps content = [t] -> parseFile path w = Ret (Parsed 0) w)
  /\ (forall (pre : list (list byte)) (v : list byte) (post : list (list byte))
             (f : Z * Z * Z),
        content = file_of_lines (pre ++ v :: post) ->
        timestamp_fields v = Some f ->
        Forall (fun b => terminator b = false) v ->
        no_timestamp_anywhere (file_of_lines pre) ->
        no_timestamp_anywhere (file_of_lines post) ->
        parseFile path w = Ret (Parsed 0) w)
  /\ (forall (first : list byte) (mids : list (list byte)) (final : list byte),
        content = file_of_lines ((bytes "[00:00:10]" ++ first)
                                   :: mids ++ [bytes "[00:01:00]" ++ final]) ->
        Forall (fun b => terminator b = false) final ->
        parseFile path w = Ret (Parsed 50) w).
Proof.
  intros Hopen. rewrite (parseFile_opened w path content Hopen).
  unfold parse_content, duration_of. split; [|split; [|split]].
  - intros Hne. destruct (timestamps content); [contradiction|reflexivity].
  - intros t ->. cbn. rewrite Z.sub_diag. reflexivity.
  - intros pre v post f -> Hv Hterm Hpre Hpost.
    rewrite (timestamps_one_line pre v post f Hv Hterm Hpre Hpost).
    cbn. rewrite Z.sub_diag. reflexivity.
  - intros first mids final Hc Hfinal.
    assert (timestamp_fields content = Some (0, 0, 10)) as Hhd
        by (rewrite Hc; reflexivity).
    destruct (timestamps_head content _ Hhd) as [rest Hts].
    assert (last (timestamps content) 0 = 60) as Hlast.
    { unfold timestamps, fresh. rewrite Hc at 2. rewrite file_of_lines_snoc.
      apply (scans_last_line
               (List.length (line (bytes "[00:00:10]" ++ first) ++ file_of_lines mids))
               _ _ (0, 1, 0)).
      - lia.
      - destruct (file_of_lines mids) eqn:E.
        + rewrite app_nil_r. apply ends_at_eol_line.
        + rewrite ends_at_eol_app by discriminate.
          rewrite <- E. apply ends_at_eol_file_of_lines.
      - reflexivity.
      - apply next_line_start_line. apply Forall_app. split; [|exact Hfinal].
        repeat constructor.
      - rewrite <- file_of_lines_snoc, <- Hc.
        unfold measure, fuel_for, fresh. cbn [data past]. lia. }
    rewrite Hts in *. cbn [is_nil hd]. rewrite Hlast. reflexivity.
Qed.

Lemma parseFile_no_scan (w : world) (path : string) (content : list byte) :
  node_at w path = Some (Reg true content) ->
  timestamps content = [] ->
  parseFile path w = Ret FormatFailure (set_open_gz w (S (open_gz w))).
Proof.
  intros Hopen Hts. rewrite (parseFile_opened w path content Hopen).
  unfold parse_content. rewrite Hts. reflexivity.
Qed.

(** C8 fails on the code: a file that opens and in which no line begins
    with a timestamp is parsed with success, and duration 0, when a line
    holds a timestamp inside. *)
Lemma no_valid_line_parsed :
  node_at inside_world "none.log"
  = Some (Reg true (file_of_lines [ bytes "Exception at [12:30:00] tick" ]))
  /\ timestamp_fields (bytes "Exception at [12:30:00] tick") = None
  /\ parseFile "none.log" inside_world = Ret (Parsed 0) inside_world
  /\ Parsed 0 <> FormatFailure.
Proof.
  repeat split; try reflexivity. discriminate.
Qed.

(** C8, amended: a file that opens and is read to its end, and in which no
    scan yields a timestamp (in particular a file that holds no timestamp
    at any offset, and the empty file) makes [parseFile] return
    [FormatFailure], which differs from the [SystemFailure] returned when
    [gzopen] returns NULL. *)
Theorem parseFile_format_failure (w : world) (path : string) (content : list byte) :
  node_at w path = Some (Reg true content) ->
  (timestamps content = [] ->
   parseFile path w = Ret FormatFailure (set_open_gz w (S (open_gz w))))
  /\ (no_timestamp_anywhere content ->
      parseFile path w = Ret FormatFailure (set_open_gz w (S (open_gz w))))
  /\ (content = [] ->
      parseFile path w = Ret FormatFailure (set_open_gz w (S (open_gz w))))
  /\ FormatFailure <> SystemFailure
  /\ (forall (w' : world) (path' : string),
        gzopen path' w' = Ret None w' ->
        parseFile path' w' = Ret SystemFailure w').
Proof.
  intros Hopen.
  pose proof (parseFile_no_scan w path content Hopen) as Hkey.
  split; [exact Hkey|]. split; [|split; [|split]].
  - intros Hno. apply Hkey. apply (scans_no_timestamp _ _ false false). exact Hno.
  - intros ->. apply Hkey. reflexivity.
  - discriminate.
  - intros w' path' Hn. apply parseFile_not_opened. exact Hn.
Qed.

Lemma parseFile_duration_witness :
  parseFile "logs/latest.log" example_world = Ret (Parsed 50) example_world
  /\ parseFile "single.log" inside_world = Ret (Parsed 0) inside_world.
Proof.
  split.
  - refine (proj2 (proj2 (proj2 (parseFile_duration example_world "logs/latest.log"
                                   current_session _)))
              (bytes " [main/INFO]: Loading")
              (map bytes ["garbage"; "    at x.y.z [00:00:30] nested"]%string)
              (bytes " [main/INFO]: Stopping") _ _).
    + reflexivity.
    + reflexivity.
    + repeat constructor.
  - refine (proj1 (proj2 (proj2 (parseFile_duration inside_world "single.log"
                                   (text_file [ "starting up"; "[12:00:00] start";
                                                "done" ]%string) _)))
              [bytes "starting up"] (bytes "[12:00:00] start") [bytes "done"]
              (12, 0, 0) _ _ _ _ _).
    + reflexivity.
    + reflexivity.
    + reflexivity.
    + repeat constructor.
    + intros n. do 12 (destruct n as [|n]; [reflexivity|]).
      destruct n; reflexivity.
    + intros n. do 5 (destruct n as [|n]; [reflexivity|]).
      destruct n; reflexivity.
Defined.

Lemma parseFile_format_failure_witness :
  parseFile "empty.log" example_world
  = Ret FormatFailure (set_open_gz example_world 1).
Proof.
  refine (proj1 (parseFile_format_failure example_world "empty.log" [] _) _).
  - reflexivity.
  - reflexivity.
Defined.

(** C7 fails on the code: on the [return 2] taken when no timestamp is
    found, [parseFile] does not call [gzclose]; the stream it opened stays
    open, whereas the successful path closes it. *)
Theorem format_failure_leaves_stream_open :
  parseFile "empty.log" example_world
  = Ret FormatFailure (set_open_gz example_world 1)
  /\ open_gz (set_open_gz example_world 1) = S (open_gz example_world)
  /\ parseFile "logs/latest.log" example_world
     = Ret (Parsed 50) example_world.
Proof.
  repeat split; reflexivity.
Qed.

(** ** Termination *)

Lemma parseLine_consumes (gf : gzFile) :
  failing gf = false ->
  past (snd (parseLine gf)) = true
  \/ (List.length (data (snd (parseLine gf))) < List.length (data gf))%nat.
Proof.
  intros Hf. rewrite parseLine_spec.
  destruct (timestamp_fields (data gf)) as [f|] eqn:E; cbn [snd].
  - unfold after_line. cbn [data past]. rewrite Hf. cbn [negb orb].
    pose proof (next_line_start_length (data gf)) as Hl.
    destruct (next_line_start (data gf)) eqn:En; [left; reflexivity|right].
    destruct (data gf); [discriminate|]. cbn [tl List.length] in *. lia.
  - unfold after_mismatch. cbn [data past]. rewrite Hf. cbn [negb andb].
    destruct (List.length (data gf) <=? matched_prefix tag (data gf))%nat eqn:El.
    + left. apply orb_true_r.
    + right. apply Nat.leb_gt in El. rewrite length_skipn. lia.
Qed.

(** Once the reads of a stream have ended in an error, a call of
    [parseLine] changes nothing: it fails, consumes no byte and does not
    observe the end of the stream. *)
Lemma parseLine_stuck (gf : gzFile) :
  failing gf = true -> data gf = [] -> parseLine gf = (None, gf).
Proof.
  intros Hf Hd. rewrite parseLine_spec. rewrite Hd. cbn [timestamp_fields].
  unfold after_mismatch. rewrite Hd, Hf. cbn.
  rewrite orb_false_r. destruct gf as [d p f]. cbn in *. subst. reflexivity.
Qed.

Lemma find_start_S (fuel : nat) (gf : gzFile) :
  find_start (S fuel) gf =
  match parseLine gf with
  | (Some start, gf1) => Some (Some (start, gf1))
  | (None, gf1) => if gzeof gf1 =? 1 then Some None else find_start fuel gf1
  end.
Proof. reflexivity. Qed.

Lemma find_end_S (fuel : nat) (gf : gzFile) (e : Z) :
  find_end (S fuel) gf e =
  if gzeof gf =? 0 then
    match parseLine gf with
    | (Some tmp, gf1) => find_end fuel gf1 tmp
    | (None, gf1) => find_end fuel gf1 e
    end
  else Some (e, gf).
Proof. reflexivity. Qed.

Lemma find_start_more (fuel : nat) :
  forall (gf : gzFile) (r : option (Z * gzFile)) (more : nat),
    find_start fuel gf = Some r -> find_start (fuel + more) gf = Some r.
Proof.
  induction fuel as [|fuel IH]; intros gf r more H; [discriminate|].
  change (S fuel + more)%nat with (S (fuel + more)).
  rewrite find_start_S in *.
  destruct (parseLine gf) as [[t|] gf1]; [exact H|].
  destruct (gzeof gf1 =? 1); [exact H|]. apply IH. exact H.
Qed.

Lemma find_end_more (fuel : nat) :
  forall (gf : gzFile) (e : Z) (r : Z * gzFile) (more : nat),
    find_end fuel gf e = Some r -> find_end (fuel + more) gf e = Some r.
Proof.
  induction fuel as [|fuel IH]; intros gf e r more H; [discriminate|].
  change (S fuel + more)%nat with (S (fuel + more)).
  rewrite find_end_S in *.
  destruct (gzeof gf =? 0); [|exact H].
  destruct (parseLine gf) as [[t|] gf1]; apply IH; exact H.
Qed.

Lemma find_start_total (content : list byte) :
  exists r, find_start (fuel_for content) (fresh content) = Some r.
Proof.
  pose proof (find_start_scans (fuel_for content) (fresh content)
                (fuel_for content) eq_refl eq_refl) as Hs.
  rewrite measure_fresh in Hs. unfold fuel_for in Hs at 1 2.
  specialize (Hs ltac:(lia) ltac:(lia)).
  destruct (scans (fuel_for content) (fresh content)).
  - eexists. exact Hs.
  - destruct Hs as (gf1 & Hs & _). eexists. exact Hs.
Qed.

Lemma find_start_measure (fuel : nat) :
  forall (gf : gzFile) (start : Z) (gf1 : gzFile),
    failing gf = false ->
    past gf = false ->
    find_start fuel gf = Some (Some (start, gf1)) ->
    failing gf1 = false /\ (measure gf1 < measure gf)%nat.
Proof.
  induction fuel as [|fuel IH]; intros gf start gf1 Hf Hp H; [discriminate|].
  rewrite find_start_S in H.
  pose proof (parseLine_progress gf Hf Hp) as Hlt.
  pose proof (parseLine_failing gf) as Hf2. rewrite Hf in Hf2.
  destruct (parseLine gf) as [[t|] gf2]; cbn [snd] in Hlt, Hf2.
  - injection H as <- <-. split; assumption.
  - unfold gzeof in H. destruct (past gf2) eqn:Hp2; cbn in H; [discriminate|].
    destruct (IH gf2 start gf1 Hf2 Hp2 H) as [Hf1 Hm]. split; [exact Hf1|lia].
Qed.

Lemma find_end_total (content : list byte) (start : Z) (gf1 : gzFile) :
  find_start (fuel_for content) (fresh content) = Some (Some (start, gf1)) ->
  exists r, find_end (fuel_for content) gf1 start = Some r.
Proof.
  intros H. apply find_start_measure in H; [|reflexivity|reflexivity].
  destruct H as [Hf1 H]. rewrite measure_fresh in H.
  destruct (find_end_scans (fuel_for content) gf1 start (fuel_for content))
    as [gf2 He]; [exact Hf1 | unfold fuel_for; lia | unfold fuel_for; lia |].
  eexists. exact He.
Qed.

(** C10 fails on the code: [parseFile] does not terminate on a file that
    opens and whose reads end in an error (an archive with damaged data, a
    directory).  After the error a call of [parseLine] neither observes
    the end of the stream nor consumes a byte; the first loop then never
    takes its [return 2] and the second loop never ends, whatever the number
    of iterations; in the process, [parseFile] does not return for such a
    file. *)
Theorem parseFile_read_error_never_ends :
  (forall gf : gzFile,
      failing gf = true -> data gf = [] -> parseLine gf = (None, gf))
  /\ (forall gf : gzFile,
        failing gf = true -> past gf = false ->
        forall fuel : nat,
          find_start fuel gf <> Some None
          /\ forall (start : Z) (gf1 : gzFile),
               find_start fuel gf = Some (Some (start, gf1)) ->
               forall fuel' : nat, find_end fuel' gf1 start = None)
  /\ (forall (w : world) (path : string) (content : list byte),
        gzopen path w
        = Ret (Some (broken content)) (set_open_gz w (S (open_gz w))) ->
        parseFile path w = Spin)
  /\ parseFile "2023-10-05-1.log.gz" damaged_world = Spin
  /\ parseFile "latest.log" nested_world = Spin.
Proof.
  split; [exact parseLine_stuck|].
  split; [exact parseFile_never_returns|].
  split; [exact parseFile_broken|].
  split; reflexivity.
Qed.

Lemma parseFile_read_error_never_ends_witness :
  parseLine (broken []) = (None, broken []).
Proof.
  apply (proj1 parseFile_read_error_never_ends (broken [])); reflexivity.
Defined.

(** ** [isLogGzFile] *)

Lemma cchar_shift (c : ascii) (s : string) (i : nat) :
  cchar (String c s) (S i) = cchar s i.
Proof. reflexivity. Qed.

Lemma isLogGzFile_from_shift (fmt : list ascii) :
  forall (c : ascii) (s : string) (i : nat),
    isLogGzFile_from fmt (String c s) (S i) = isLogGzFile_from fmt s i.
Proof.
  induction fmt as [|f fmt IH]; intros c s i; [reflexivity|].
  cbn [isLogGzFile_from]. rewrite cchar_shift, IH. reflexivity.
Qed.

Lemma digit_char_not_NUL (c : ascii) : is_digit_char c = true -> Ascii.eqb c NUL = false.
Proof.
  intros H. apply Ascii.eqb_neq. intros ->. discriminate.
Qed.

(** The loop accepts exactly the C strings that fit the format. *)
Lemma isLogGzFile_from_fits (fmt : list ascii) :
  Forall (fun f => Ascii.eqb f NUL = false) fmt ->
  forall name : string,
    isLogGzFile_from (fmt ++ [NUL]) name 0 = if fits fmt (c_str name) then 1 else 0.
Proof.
  induction 1 as [|f fmt Hf Hfmt IH]; intros name.
  - cbn [app isLogGzFile_from]. change (Ascii.eqb NUL "n") with false.
    change (Ascii.eqb NUL NUL) with true. cbv iota.
    destruct name as [|c s]; [reflexivity|].
    change (cchar (String c s) 0) with c. cbn [c_str].
    destruct (Ascii.eqb c NUL); reflexivity.
  - cbn [app isLogGzFile_from]. rewrite Hf.
    destruct name as [|c s].
    + change (cchar EmptyString 0) with NUL. cbn [c_str fits].
      rewrite (Ascii.eqb_sym NUL f), Hf.
      destruct (Ascii.eqb f "n"); reflexivity.
    + change (cchar (String c s) 0) with c.
      rewrite isLogGzFile_from_shift, IH. cbn [c_str].
      destruct (Ascii.eqb f "n") eqn:En.
      * fold (is_digit_char c).
        destruct (is_digit_char c) eqn:Ed; cbn [negb].
        -- rewrite (digit_char_not_NUL c Ed). cbn [fits]. unfold slot_fits.
           rewrite En, Ed. reflexivity.
        -- destruct (Ascii.eqb c NUL); [reflexivity|].
           cbn [fits]. unfold slot_fits. rewrite En, Ed. reflexivity.
      * destruct (Ascii.eqb c f) eqn:Ec; cbn [negb].
        -- apply Ascii.eqb_eq in Ec. subst c. rewrite Hf.
           cbn [fits]. unfold slot_fits. rewrite En, Ascii.eqb_refl. reflexivity.
        -- destruct (Ascii.eqb c NUL); [reflexivity|].
           cbn [fits]. unfold slot_fits. rewrite En, Ec. reflexivity.
Qed.

Lemma format_eq :
  format = list_ascii_of_string "nnnn-nn-nn-n.log.gz" ++ [NUL].
Proof. reflexivity. Qed.

Lemma format_no_NUL :
  Forall (fun f => Ascii.eqb f NUL = false)
         (list_ascii_of_string "nnnn-nn-nn-n.log.gz").
Proof. repeat constructor. Qed.

Lemma fits_cons_digit (fmt : list ascii) (c : ascii) (s : string) :
  fits ("n"%char :: fmt) (String c s) = is_digit_char c && fits fmt s.
Proof. reflexivity. Qed.

Lemma fits_cons_literal (f : ascii) (fmt : list ascii) (c : ascii) (s : string) :
  Ascii.eqb f "n" = false ->
  fits (f :: fmt) (String c s) = Ascii.eqb c f && fits fmt s.
Proof. intros H. cbn [fits]. unfold slot_fits. rewrite H. reflexivity. Qed.

Lemma fits_format (name : string) :
  fits (list_ascii_of_string "nnnn-nn-nn-n.log.gz") name = true
  <-> archived_log_name name.
Proof.
  change (list_ascii_of_string "nnnn-nn-nn-n.log.gz")
    with ["n"; "n"; "n"; "n"; "-"; "n"; "n"; "-"; "n"; "n"; "-"; "n";
          "."; "l"; "o"; "g"; "."; "g"; "z"]%char.
  split.
  - intros H.
    do 19 (destruct name as [|? name]; [discriminate H|];
           first [ rewrite fits_cons_digit in H; apply andb_true_iff in H;
                   let E := fresh "E" in destruct H as [E H]
                 | rewrite fits_cons_literal in H by reflexivity;
                   apply andb_true_iff in H;
                   let E := fresh "E" in destruct H as [E H];
                   apply Ascii.eqb_eq in E; subst ]).
    destruct name; [|discriminate H].
    unfold archived_log_name.
    do 9 eexists. repeat (match goal with |- _ /\ _ => split end).
    10: reflexivity.
    all: assumption.
  - intros (y1 & y2 & y3 & y4 & m1 & m2 & d1 & d2 & n & H1 & H2 & H3 & H4
            & H5 & H6 & H7 & H8 & H9 & ->).
    cbn [string_of_list_ascii String.append].
    repeat first [ rewrite fits_cons_digit
                 | rewrite fits_cons_literal by reflexivity ].
    rewrite H1, H2, H3, H4, H5, H6, H7, H8, H9. reflexivity.
Qed.

(** C9: [isLogGzFile] accepts a name if and only if it consists of four
    decimal digits, a hyphen, two digits, a hyphen, two digits, a hyphen,
    one digit and the literal [.log.gz], with nothing after it; it returns
    1 or 0; it accepts [2023-10-05-1.log.gz] and rejects
    [2023-10-05-1.log], [23-10-05-1.log.gz] and [2023-10-05-a.log.gz]. *)
Theorem isLogGzFile_accepts (name : string) :
  (isLogGzFile name = 1 <-> archived_log_name (c_str name))
  /\ (isLogGzFile name = 1 \/ isLogGzFile name = 0)
  /\ isLogGzFile "2023-10-05-1.log.gz" = 1
  /\ isLogGzFile "2023-10-05-1.log" = 0
  /\ isLogGzFile "23-10-05-1.log.gz" = 0
  /\ isLogGzFile "2023-10-05-a.log.gz" = 0.
Proof.
  unfold isLogGzFile at 1 2 3. rewrite format_eq.
  rewrite (isLogGzFile_from_fits _ format_no_NUL name).
  rewrite <- fits_format.
  destruct (fits (list_ascii_of_string "nnnn-nn-nn-n.log.gz") (c_str name)).
  - repeat split; auto.
  - repeat split; auto; discriminate.
Qed.

Lemma isLogGzFile_accepts_witness :
  isLogGzFile "2019-12-31-7.log.gz" = 1.
Proof.
  apply (proj1 (isLogGzFile_accepts "2019-12-31-7.log.gz")).
  exists "2"%char, "0"%char, "1"%char, "9"%char, "1"%char, "2"%char,
         "3"%char, "1"%char, "7"%char.
  repeat split; reflexivity.
Defined.

(** ** [parseDirectory] *)

Lemma node_at_set_open_gz (w : world) (n : nat) (path : string) :
  node_at (set_open_gz w n) path = node_at w path.
Proof. reflexivity. Qed.

Lemma file_outcome_set_open_gz (w : world) (n : nat) (name : string) :
  file_outcome (set_open_gz w n) name = file_outcome w name.
Proof. reflexivity. Qed.

Lemma some_endless_set_open_gz (w : world) (n : nat) (names : list string) :
  some_endless (set_open_gz w n) names = some_endless w names.
Proof. reflexivity. Qed.

Lemma set_open_gz_twice (w : world) (n m : nat) :
  set_open_gz (set_open_gz w n) m = set_open_gz w m.
Proof. reflexivity. Qed.

Lemma set_open_gz_same (w : world) : set_open_gz w (open_gz w) = w.
Proof. destruct w. reflexivity. Qed.

(** [parseFile] on a file of the working directory: it returns the outcome
    of the file, with one more stream open after the [return 2], or it
    does not return. *)
Lemma parseFile_exact (w : world) (name : string) :
  parseFile name w =
  match file_outcome w name with
  | Some o =>
      Ret o (set_open_gz w (if is_format_failure o
                            then S (open_gz w) else open_gz w))
  | None => Spin
  end.
Proof.
  destruct (file_outcome w name) as [o|] eqn:Eo;
    [|apply parseFile_endless; exact Eo].
  unfold file_outcome in Eo.
  destruct (node_at w name) as [[[|] c|[|] c|s [|] e|]|] eqn:E; try discriminate;
    try (injection Eo as <-; cbn [is_format_failure]; rewrite set_open_gz_same;
         apply parseFile_not_opened; unfold gzopen; rewrite E; reflexivity).
  injection Eo as <-.
  rewrite (parseFile_opened w name c E). unfold parse_content.
  destruct (timestamps c); cbn [is_nil is_format_failure].
  - reflexivity.
  - rewrite set_open_gz_same. reflexivity.
Qed.

Lemma durations_app (a b : list (option ParseOutcome)) :
  durations (a ++ b) = durations a ++ durations b.
Proof. unfold durations. apply flat_map_app. Qed.

Lemma durations_cons (o : option ParseOutcome) (l : list (option ParseOutcome)) :
  durations (o :: l) =
  match o with
  | Some (Parsed d) => d :: durations l
  | _ => durations l
  end.
Proof. destruct o as [[| |]|]; reflexivity. Qed.

Lemma total_app (a b : list Z) : total (a ++ b) = total a + total b.
Proof.
  unfold total. induction a as [|x a IH]; cbn [app fold_right]; lia.
Qed.

Lemma format_failures_cons (w : world) (name : string) (names : list string) :
  format_failures w (name :: names) =
  ((if holds_no_timestamp (file_outcome w name) then 1 else 0)
   + format_failures w names)%nat.
Proof.
  unfold format_failures. cbn [map filter].
  destruct (holds_no_timestamp (file_outcome w name)); reflexivity.
Qed.

Lemma format_failures_app (w : world) (a b : list string) :
  format_failures w (a ++ b) = (format_failures w a + format_failures w b)%nat.
Proof.
  unfold format_failures. rewrite map_app, filter_app, length_app. reflexivity.
Qed.

Lemma format_failures_set_open_gz (w : world) (n : nat) (names : list string) :
  format_failures (set_open_gz w n) names = format_failures w names.
Proof. reflexivity. Qed.

Lemma some_endless_cons (w : world) (name : string) (names : list string) :
  some_endless w (name :: names) =
  (match file_outcome w name with None => true | _ => false end)
  || some_endless w names.
Proof. reflexivity. Qed.

Lemma some_endless_app (w : world) (a b : list string) :
  some_endless w (a ++ b) = some_endless w a || some_endless w b.
Proof. unfold some_endless. apply existsb_app. Qed.

Lemma scan_entries_cons (d_name : string) (rest : list string) (sum file : Z) :
  scan_entries (d_name :: rest) sum file =
  if accepted d_name then
    r <- parseFile d_name ;;
    match r with
    | Parsed tmp => scan_entries rest (sum + tmp) (file + 1)
    | _ => scan_entries rest sum file
    end
  else scan_entries rest sum file.
Proof. reflexivity. Qed.

(** The [readdir] loop adds the durations of the accepted entries that
    parse and counts them; it leaves one stream open for every accepted
    entry without a timestamp; it does not end when [parseFile] does not
    return for an accepted entry. *)
Lemma scan_entries_exact (names : list string) :
  forall (sum file : Z) (w : world),
    scan_entries names sum file w =
    if some_endless w (filter accepted names) then Spin
    else
      Ret (sum + total (durations (map (file_outcome w) (filter accepted names))),
           file + Z.of_nat (List.length
                    (durations (map (file_outcome w) (filter accepted names)))))
          (set_open_gz w (open_gz w + format_failures w (filter accepted names))).
Proof.
  induction names as [|d_name rest IH]; intros sum file w.
  - cbn. unfold ret. rewrite !Z.add_0_r, Nat.add_0_r, set_open_gz_same.
    reflexivity.
  - rewrite scan_entries_cons. cbn [filter].
    destruct (accepted d_name); [|apply IH].
    unfold bind. rewrite parseFile_exact.
    cbn [map]. rewrite some_endless_cons, durations_cons, format_failures_cons.
    destruct (file_outcome w d_name) as [[tmp| |]|];
      cbn [orb holds_no_timestamp is_format_failure]; [| | |reflexivity];
      rewrite IH, some_endless_set_open_gz;
      (destruct (some_endless w (filter accepted rest)); [reflexivity|]);
      rewrite set_open_gz_twice;
      change (file_outcome (set_open_gz w ?n)) with (file_outcome w);
      rewrite format_failures_set_open_gz; cbn [open_gz set_open_gz].
    + cbn [List.length total fold_right]. rewrite Nat2Z.inj_succ.
      f_equal; try (unfold total; lia); f_equal; unfold total; lia.
    + f_equal; try lia; f_equal; lia.
    + f_equal; try lia; f_equal; lia.
Qed.

Lemma chdir_result (path : string) (w : world) :
  chdir path w = Ret (-1) w \/ exists w', chdir path w = Ret 0 w'.
Proof.
  unfold chdir. destruct (resolve w path) as [p|]; [|left; reflexivity].
  destruct (lookup (fs w) p) as [[| | [|] | ]|]; try (left; reflexivity).
  right. eexists. reflexivity.
Qed.

Lemma finish_eq (origin : option string) (v v' : option (Z * Z)) (w w' : world) :
  v = v' -> w = w' ->
  (match origin with Some o => chdir_s o | None => ret tt end ;;; ret v) w
  = (match origin with Some o => chdir_s o | None => ret tt end ;;; ret v') w'.
Proof. intros -> ->. reflexivity. Qed.

(** What [parseDirectory] does once the directory is entered and listed:
    it does not return when [parseFile] does not return for one of the
    files it tries; otherwise, the value it is about to return and the
    process before the final [chdir] to [origin]. *)
Lemma parseDirectory_exact
    (w w1 : world) (path origin : option string) (names : list string) :
  entered w path w1 ->
  opendir_dot w1 = Ret (Some names) w1 ->
  parseDirectory path origin w =
  if some_endless w1 (candidates names) then Spin
  else
    (match origin with Some o => chdir_s o | None => ret tt end ;;;
     ret (Some (Z.of_nat (List.length
                            (durations (map (file_outcome w1) (candidates names)))),
                total (durations (map (file_outcome w1) (candidates names))))))
      (set_open_gz w1 (open_gz w1 + format_failures w1 (candidates names))).
Proof.
  intros Hin Hdir. unfold parseDirectory. unfold bind at 1.
  assert ((match path with Some p => chdir p | None => ret 0 end) w = Ret 0 w1)
    as -> by (destruct path; [exact Hin | cbn in Hin; subst; reflexivity]).
  cbn [Z.eqb negb]. unfold bind at 1. rewrite Hdir.
  unfold bind at 1. rewrite scan_entries_exact.
  unfold candidates. rewrite some_endless_app, some_endless_cons.
  change (some_endless w1 []) with false. rewrite orb_false_r.
  destruct (some_endless w1 (filter accepted names)); [reflexivity|].
  cbn [orb].
  unfold bind at 1. rewrite parseFile_exact.
  rewrite file_outcome_set_open_gz.
  rewrite map_app, durations_app, total_app, length_app, format_failures_app.
  cbn [map]. rewrite format_failures_cons, durations_cons.
  change (format_failures w1 []) with O. change (durations []) with (@nil Z).
  destruct (file_outcome w1 "latest.log") as [[tmp| |]|]; [| | |reflexivity];
    rewrite set_open_gz_twice; cbn [open_gz set_open_gz];
    cbv beta iota zeta;
    cbn [holds_no_timestamp is_format_failure List.length total fold_right];
    (apply finish_eq; [apply f_equal, f_equal2; lia | f_equal; lia]).
Qed.

(** C5 fails on the code: a file whose reads end in an error is not skipped.
    When one of the files tried, an entry with an accepted name or
    [latest.log], opens and its reads end in an error (an archive with
    damaged data; a directory of that name), [parseFile] does not return
    for it, and [parseDirectory] does not return either.  So it is for a
    directory that can be entered and listed and that holds an archive of
    100 seconds and a directory named [latest.log], and for one that holds
    a damaged archive and a current log of 50 seconds. *)
Theorem parseDirectory_read_error_never_ends :
  (forall (w w1 : world) (path origin : option string) (names : list string),
      entered w path w1 ->
      opendir_dot w1 = Ret (Some names) w1 ->
      some_endless w1 (candidates names) = true ->
      parseDirectory path origin w = Spin)
  /\ opendir_dot nested_world
     = Ret (Some [ "."; ".."; "2023-10-05-1.log.gz"; "latest.log" ]%string)
           nested_world
  /\ file_outcome nested_world "2023-10-05-1.log.gz" = Some (Parsed 100)
  /\ stat "latest.log" nested_world = Ret (Some S_ISDIR) nested_world
  /\ parseDirectory None None nested_world = Spin
  /\ opendir_dot damaged_world
     = Ret (Some [ "."; ".."; "2023-10-05-1.log.gz"; "latest.log" ]%string)
           damaged_world
  /\ file_outcome damaged_world "latest.log" = Some (Parsed 50)
  /\ parseDirectory None None damaged_world = Spin.
Proof.
  split.
  - intros w w1 path origin names Hin Hdir He.
    rewrite (parseDirectory_exact w w1 path origin names Hin Hdir), He.
    reflexivity.
  - repeat split; reflexivity.
Qed.

Lemma parseDirectory_read_error_never_ends_witness :
  parseDirectory None (Some "/"%string) nested_world = Spin.
Proof.
  apply (proj1 parseDirectory_read_error_never_ends
           nested_world nested_world None (Some "/"%string)
           [ "."; ".."; "2023-10-05-1.log.gz"; "latest.log" ]%string);
    reflexivity.
Defined.

(** ** The working directory *)

(** C1 fails on the code.  [parseDirectory] returns -1 without the [chdir]
    to [origin] when [opendir] fails after the directory was entered, and
    [autoParse] returns -1 without it when the directory delegate reports
    -1 or 0 files: the caller's working directory is lost, so that [main]
    resolves its next relative argument from the wrong directory.  When
    the scan succeeds, the same functions do restore it. *)
Theorem working_directory_not_restored :
  parseDirectory (Some "locked"%string) (Some "/"%string) example_world
  = Ret None (set_cwd example_world ["locked"%string])
  /\ autoParse (Some "locked"%string) (Some "/"%string) example_world
     = Ret None (set_cwd example_world ["locked"%string])
  /\ autoParse (Some "empty"%string) (Some "/"%string) example_world
     = Ret None (set_cwd example_world ["empty"%string])
  /\ cwd (set_cwd example_world ["empty"%string]) <> cwd example_world
  /\ parseDirectory (Some "logs"%string) (Some "/"%string) example_world
     = Ret (Some (3, 350)) example_world
  /\ autoParse (Some "logs"%string) (Some "/"%string) example_world
     = Ret (Some (3, 350)) example_world
  /\ main_loop ["logs"; "empty"]%string "/" 0 0 example_world
     = Ret (350, 3) (set_cwd example_world ["empty"%string])
  /\ main_loop ["empty"; "logs"]%string "/" 0 0 example_world
     = Ret (0, 0) (set_cwd example_world ["empty"%string]).
Proof.
  repeat split; try (vm_compute; reflexivity).
  discriminate.
Qed.

(** * Further properties of the code *)

(** ** Durations *)

Lemma scans_bound (fuel : nat) :
  forall gf : gzFile, Forall (fun t => 0 <= t <= 362439) (scans fuel gf).
Proof.
  induction fuel as [|fuel IH]; intros gf; [constructor|].
  cbn [scans]. destruct (past gf); [constructor|].
  rewrite parseLine_spec.
  destruct (timestamp_fields (data gf)) as [[[h m] s]|] eqn:E.
  - constructor; [|apply IH].
    apply timestamp_fields_range in E. cbn [seconds_of]. lia.
  - apply IH.
Qed.

Lemma last_in_range (P : Z -> Prop) (l : list Z) (d : Z) :
  Forall P l -> l <> [] -> P (last l d).
Proof.
  induction 1 as [|x l Hx Hl IH]; intros Hne; [contradiction|].
  destruct l as [|y l]; [exact Hx|].
  change (last (x :: y :: l) d) with (last (y :: l) d).
  apply IH. discriminate.
Qed.

(** A [Parsed] outcome comes from a regular file that was opened. *)
Lemma parsed_outcome (w : world) (name : string) (d : Z) :
  file_outcome w name = Some (Parsed d) ->
  exists content,
    node_at w name = Some (Reg true content) /\ parse_content content = Parsed d.
Proof.
  unfold file_outcome.
  destruct (node_at w name) as [[[|] c|[|] c|s [|] e|]|]; try discriminate.
  intros H. injection H as H. exists c. split; [reflexivity|exact H].
Qed.

(** X1: a duration that [parseFile] returns is the difference of two
    scanned timestamps of the file, the last one minus the first one; both
    lie between 0 and 362439, so the duration lies between -362439 and
    362439, and it is negative exactly when the last timestamp is smaller
    than the first one. *)
Theorem parseFile_duration_range (w w' : world) (path : string) (d : Z) :
  parseFile path w = Ret (Parsed d) w' ->
  exists (content : list byte) (first last_ : Z) (rest : list Z),
    node_at w path = Some (Reg true content)
    /\ timestamps content = first :: rest
    /\ last_ = last rest first
    /\ d = last_ - first
    /\ 0 <= first <= 362439
    /\ 0 <= last_ <= 362439
    /\ -362439 <= d <= 362439
    /\ (d < 0 <-> last_ < first).
Proof.
  intros H. rewrite parseFile_exact in H.
  destruct (file_outcome w path) as [o|] eqn:Eo; [|discriminate].
  injection H as -> _.
  destruct (parsed_outcome w path d Eo) as (c & Hn & Hc).
  unfold parse_content in Hc.
  pose proof (scans_bound (fuel_for c) (fresh c)) as Hb.
  fold (timestamps c) in Hb.
  destruct (timestamps c) as [|t rest] eqn:Et; [discriminate|].
  injection Hc as <-. unfold duration_of. rewrite last_cons_default. cbn [hd].
  pose proof (last_in_range _ (t :: rest) 0 Hb ltac:(discriminate)) as Hl.
  cbn beta in Hl. rewrite last_cons_default in Hl. inversion Hb; subst.
  exists c, t, (last rest t), rest.
  split; [exact Hn|]. split; [exact Et|]. split; [reflexivity|].
  split; [reflexivity|]. repeat split; lia.
Qed.

Lemma parseFile_duration_range_witness :
  exists (content : list byte) (first last_ : Z) (rest : list Z),
    node_at night_world "night.log" = Some (Reg true content)
    /\ timestamps content = first :: rest
    /\ last_ = last rest first
    /\ -82790 = last_ - first
    /\ 0 <= first <= 362439
    /\ 0 <= last_ <= 362439
    /\ -362439 <= -82790 <= 362439
    /\ (-82790 < 0 <-> last_ < first).
Proof.
  apply (parseFile_duration_range night_world night_world "night.log").
  reflexivity.
Defined.

(** X2: the duration of a log whose first and last lines begin with a
    timestamp is the timestamp of the last line minus that of the first
    one, whatever the lines between them hold. *)
Theorem parseFile_first_and_last_line
    (w : world) (path : string) (first final : list byte)
    (mids : list (list byte)) (f1 f2 : Z * Z * Z) :
  node_at w path = Some (Reg true (file_of_lines (first :: mids ++ [final]))) ->
  timestamp_fields first = Some f1 ->
  timestamp_fields final = Some f2 ->
  Forall (fun b => terminator b = false) final ->
  parseFile path w = Ret (Parsed (seconds_of f2 - seconds_of f1)) w.
Proof.
  intros Hopen H1 H2 Hfinal.
  set (content := file_of_lines (first :: mids ++ [final])) in *.
  rewrite (parseFile_opened w path content Hopen).
  assert (content = (line first ++ file_of_lines mids) ++ line final) as Hc
      by apply file_of_lines_snoc.
  assert (timestamp_fields content = Some f1) as Hhd.
  { rewrite Hc. unfold line. rewrite <- !app_assoc.
    apply timestamp_fields_app. exact H1. }
  destruct (timestamps_head content f1 Hhd) as [rest Hts].
  assert (last (timestamps content) 0 = seconds_of f2) as Hlast.
  { unfold timestamps, fresh. rewrite Hc at 2.
    apply (scans_last_line (List.length (line first ++ file_of_lines mids))).
    - lia.
    - destruct (file_of_lines mids) eqn:E.
      + rewrite app_nil_r. apply ends_at_eol_line.
      + rewrite ends_at_eol_app by discriminate.
        rewrite <- E. apply ends_at_eol_file_of_lines.
    - unfold line. apply timestamp_fields_app. exact H2.
    - apply next_line_start_line. exact Hfinal.
    - rewrite <- Hc. unfold measure, fuel_for, fresh. cbn [data past]. lia. }
  unfold parse_content, duration_of. rewrite Hts in *. cbn [is_nil hd].
  rewrite Hlast. reflexivity.
Qed.

Lemma parseFile_first_and_last_line_witness :
  parseFile "logs/2023-10-05-1.log.gz" example_world
  = Ret (Parsed (seconds_of (10, 1, 40) - seconds_of (10, 0, 0))) example_world.
Proof.
  apply (parseFile_first_and_last_line example_world "logs/2023-10-05-1.log.gz"
           (bytes "[10:00:00] [main/INFO]: Loading")
           (bytes "[10:01:40] [main/INFO]: Stopping")
           [bytes "java.lang.IllegalStateException: oops"]).
  - reflexivity.
  - reflexivity.
  - reflexivity.
  - repeat constructor.
Defined.

(** ** What [parseLine] and [parseFile] leave untouched *)

Lemma drop_while_suffix (f : byte -> bool) (bs : list byte) :
  exists pre, bs = pre ++ drop_while f bs.
Proof.
  induction bs as [|b bs [pre IH]]; [exists []; reflexivity|].
  cbn [drop_while]. destruct (f b).
  - exists (b :: pre). cbn. f_equal. exact IH.
  - exists []. reflexivity.
Qed.

Lemma tl_suffix (bs : list byte) : exists pre, bs = pre ++ tl bs.
Proof.
  destruct bs as [|b bs]; [exists []; reflexivity|exists [b]; reflexivity].
Qed.

(** X3: [parseLine] never alters the bytes it leaves unread: the stream
    after a call is a suffix of the stream before it, the byte pushed back
    after the trailing skip being the very byte that was read. *)
Theorem parseLine_leaves_suffix (gf : gzFile) :
  exists consumed, data gf = consumed ++ data (snd (parseLine gf)).
Proof.
  rewrite parseLine_spec.
  destruct (timestamp_fields (data gf)); cbn [snd].
  - unfold after_line, next_line_start. cbn [data].
    destruct (drop_while_suffix (fun b => negb (terminator b)) (data gf))
      as [p1 H1].
    destruct (tl_suffix (drop_while (fun b => negb (terminator b)) (data gf)))
      as [p2 H2].
    destruct (drop_while_suffix terminator
                (tl (drop_while (fun b => negb (terminator b)) (data gf))))
      as [p3 H3].
    exists (p1 ++ p2 ++ p3). rewrite <- !app_assoc, <- H3, <- H2. exact H1.
  - unfold after_mismatch. cbn [data].
    exists (firstn (S (matched_prefix tag (data gf))) (data gf)).
    symmetry. apply firstn_skipn.
Qed.

(** X4: [parseFile] never ends the process, and whenever it returns it has
    changed neither the file system nor the working directory; the number
    of open streams is then what it was, except after the [return 2] of a
    file without a timestamp, which leaves one more stream open. *)
Theorem parseFile_frame (w : world) (path : string) :
  (forall status : Z, parseFile path w <> Exit status)
  /\ (forall (r : ParseOutcome) (w' : world),
        parseFile path w = Ret r w' ->
        fs w' = fs w /\ cwd w' = cwd w
        /\ open_gz w' = (if is_format_failure r then S (open_gz w) else open_gz w)).
Proof.
  rewrite parseFile_exact.
  destruct (file_outcome w path) as [o|]; split; try discriminate.
  intros r w' H. injection H as <- <-.
  destruct (is_format_failure o); repeat split.
Qed.

Lemma parseFile_frame_witness :
  fs (set_open_gz example_world 1) = fs example_world
  /\ cwd (set_open_gz example_world 1) = cwd example_world
  /\ open_gz (set_open_gz example_world 1) = S (open_gz example_world).
Proof.
  apply (proj2 (parseFile_frame example_world "empty.log") FormatFailure).
  reflexivity.
Defined.

(** ** The streams and the totals of [parseDirectory] *)

Lemma entered_frame (w w1 : world) (path : option string) :
  entered w path w1 -> fs w1 = fs w /\ open_gz w1 = open_gz w.
Proof.
  destruct path as [p|]; cbn [entered]; [|intros ->; split; reflexivity].
  unfold chdir. destruct (resolve w p) as [q|]; [|discriminate].
  destruct (lookup (fs w) q) as [[| | [|] | ]|]; try discriminate.
  intros H. injection H as <-. split; reflexivity.
Qed.

Lemma outcomes_partition (os : list (option ParseOutcome)) :
  (List.length (durations os) + List.length (filter holds_no_timestamp os)
   <= List.length os)%nat.
Proof.
  induction os as [|o os IH]; [cbn; lia|].
  rewrite durations_cons.
  destruct o as [[| |]|];
    cbn [filter holds_no_timestamp is_format_failure List.length]; lia.
Qed.

Lemma parse_content_range (content : list byte) (d : Z) :
  parse_content content = Parsed d -> -362439 <= d <= 362439.
Proof.
  unfold parse_content. intros H.
  pose proof (scans_bound (fuel_for content) (fresh content)) as Hb.
  fold (timestamps content) in Hb.
  destruct (timestamps content) as [|t rest] eqn:Et; [discriminate|].
  injection H as <-. unfold duration_of.
  pose proof (last_in_range _ (t :: rest) 0 Hb ltac:(discriminate)) as Hl.
  cbn beta in Hl. inversion Hb; subst. cbn [hd]. lia.
Qed.

Lemma durations_range (w : world) (names : list string) :
  Forall (fun d => -362439 <= d <= 362439)
         (durations (map (file_outcome w) names)).
Proof.
  induction names as [|name names IH]; [constructor|].
  cbn [map]. rewrite durations_cons.
  destruct (file_outcome w name) as [[d| |]|] eqn:E; try exact IH.
  constructor; [|exact IH].
  destruct (parsed_outcome w name d E) as (c & _ & Hc).
  apply parse_content_range in Hc. exact Hc.
Qed.

Lemma total_range (ds : list Z) :
  Forall (fun d => -362439 <= d <= 362439) ds ->
  -362439 * Z.of_nat (List.length ds) <= total ds
  <= 362439 * Z.of_nat (List.length ds).
Proof.
  induction 1 as [|d ds Hd Hds IH]; [cbn; lia|].
  cbn [total fold_right List.length]. fold (total ds).
  rewrite Nat2Z.inj_succ. lia.
Qed.

(** The value returned after the final [chdir] is the value computed
    before it. *)
Lemma finish_value
    (origin : option string) (v r : option (Z * Z)) (w w' : world) :
  (match origin with Some o => chdir_s o | None => ret tt end ;;; ret v) w
  = Ret r w' ->
  r = v /\ (origin = None -> w' = w).
Proof.
  unfold bind. destruct origin as [o|].
  - unfold chdir_s, bind. destruct (chdir o w) as [c wc| |]; try discriminate.
    destruct (negb (c =? 0)); [discriminate|].
    unfold ret. intros H. injection H as <- _. split; [reflexivity|discriminate].
  - unfold ret. intros H. injection H as <- <-. split; reflexivity.
Qed.

(** X5: whenever [parseDirectory], called with no [origin] to return to,
    returns after it has entered and listed a directory, it returns a
    result other than -1, the file system is unchanged, the process is in
    the scanned directory, and the streams left open are one for every
    file tried, an accepted entry or [latest.log], that opened but held no
    timestamp. *)
Theorem parseDirectory_open_streams
    (w w1 w2 : world) (path : option string) (names : list string)
    (r : option (Z * Z)) :
  entered w path w1 ->
  opendir_dot w1 = Ret (Some names) w1 ->
  parseDirectory path None w = Ret r w2 ->
  r <> None
  /\ fs w2 = fs w /\ cwd w2 = cwd w1
  /\ open_gz w2 = (open_gz w + format_failures w1 (candidates names))%nat.
Proof.
  intros Hin Hdir H.
  rewrite (parseDirectory_exact w w1 path None names Hin Hdir) in H.
  destruct (some_endless w1 (candidates names)); [discriminate|].
  apply (finish_value None) in H. destruct H as [-> Hw]. rewrite (Hw eq_refl).
  destruct (entered_frame w w1 path Hin) as [Hfs Hop].
  cbn [fs cwd open_gz set_open_gz]. rewrite Hop.
  split; [discriminate|]. repeat split. exact Hfs.
Qed.

Lemma parseDirectory_open_streams_witness :
  Some (0, 0) <> None
  /\ fs (set_open_gz stale_world 2) = fs stale_world
  /\ cwd (set_open_gz stale_world 2) = cwd stale_world
  /\ open_gz (set_open_gz stale_world 2)
     = (open_gz stale_world
        + format_failures stale_world
            (candidates [ "."; ".."; "2020-01-01-1.log.gz"; "latest.log" ]%string))%nat.
Proof.
  apply (parseDirectory_open_streams stale_world stale_world
           (set_open_gz stale_world 2) None
           [ "."; ".."; "2020-01-01-1.log.gz"; "latest.log" ]%string (Some (0, 0)));
    reflexivity.
Defined.

(** X6: whenever [parseDirectory] returns after it has entered and listed a
    directory, the file count it returns is not negative and, together
    with the files that held no timestamp, does not exceed the number of
    files tried; the total duration lies within 362439 seconds per counted
    file, on either side of zero. *)
Theorem parseDirectory_result_range
    (w w1 w2 : world) (path origin : option string) (names : list string)
    (r : option (Z * Z)) :
  entered w path w1 ->
  opendir_dot w1 = Ret (Some names) w1 ->
  parseDirectory path origin w = Ret r w2 ->
  exists n t,
    r = Some (n, t)
    /\ 0 <= n
    /\ n + Z.of_nat (format_failures w1 (candidates names))
       <= Z.of_nat (List.length (candidates names))
    /\ -362439 * n <= t <= 362439 * n.
Proof.
  intros Hin Hdir H.
  rewrite (parseDirectory_exact w w1 path origin names Hin Hdir) in H.
  destruct (some_endless w1 (candidates names)); [discriminate|].
  apply finish_value in H. destruct H as [-> _].
  eexists. eexists. split; [reflexivity|].
  pose proof (outcomes_partition (map (file_outcome w1) (candidates names))) as Hp.
  rewrite length_map in Hp. fold (format_failures w1 (candidates names)) in Hp.
  pose proof (total_range _ (durations_range w1 (candidates names))) as Ht.
  split; [lia|]. split; [lia|exact Ht].
Qed.

Lemma parseDirectory_result_range_witness :
  exists n t,
    Some (3, 350) = Some (n, t)
    /\ 0 <= n
    /\ n + Z.of_nat (format_failures (set_cwd example_world ["logs"%string])
                       (candidates [ "."; ".."; "2023-10-05-1.log.gz"; "notes.txt";
                                     "2023-10-06-1.log.gz"; "latest.log" ]%string))
       <= Z.of_nat (List.length
                      (candidates [ "."; ".."; "2023-10-05-1.log.gz"; "notes.txt";
                                    "2023-10-06-1.log.gz"; "latest.log" ]%string))
    /\ -362439 * n <= t <= 362439 * n.
Proof.
  apply (parseDirectory_result_range
           example_world (set_cwd example_world ["logs"%string]) example_world
           (Some "logs"%string) (Some "/"%string)
           [ "."; ".."; "2023-10-05-1.log.gz"; "notes.txt";
             "2023-10-06-1.log.gz"; "latest.log" ]%string);
    reflexivity.
Defined.

(** X17: for a directory that [parseDirectory] can enter and list, and in
    which every file tried (the entries whose names [isLogGzFile] accepts
    and, in any case, [latest.log]) either cannot be opened or is read to
    its end, the file count returned is the number of files that parsed
    and the duration is the sum of their durations; a file that fails with
    [SystemFailure] or [FormatFailure] is skipped without being counted
    and without ending the scan.  The result is returned unless the final
    [chdir] to a given [origin] fails, which ends the process.  Whatever
    the files are, a result that is returned is this one.
    [parseDirectory] returns -1 only when the directory cannot be entered
    or cannot be opened for listing.  A directory with archived logs of 100
    and 200 seconds, a current log of 50 seconds and one unrelated file
    yields 3 files and 350 seconds. *)
Theorem parseDirectory_aggregates :
  (forall (w w1 : world) (path origin : option string) (names : list string),
      entered w path w1 ->
      opendir_dot w1 = Ret (Some names) w1 ->
      some_endless w1 (candidates names) = false ->
      let ds := durations (map (file_outcome w1) (candidates names)) in
      let value := Some (Z.of_nat (List.length ds), total ds) in
      exists n,
        let w2 := set_open_gz w1 n in
        match origin with
        | None => parseDirectory path origin w = Ret value w2
        | Some o =>
            (chdir o w2 = Ret (-1) w2 /\ parseDirectory path origin w = Exit 1)
            \/ (exists w3, chdir o w2 = Ret 0 w3
                           /\ parseDirectory path origin w = Ret value w3)
        end)
  /\ (forall (w w1 w2 : world) (path origin : option string) (names : list string)
             (r : option (Z * Z)),
        entered w path w1 ->
        opendir_dot w1 = Ret (Some names) w1 ->
        parseDirectory path origin w = Ret r w2 ->
        let ds := durations (map (file_outcome w1) (candidates names)) in
        r = Some (Z.of_nat (List.length ds), total ds))
  /\ (forall (w w' : world) (path origin : option string),
        parseDirectory path origin w = Ret None w' ->
        (exists p, path = Some p /\ chdir p w = Ret (-1) w')
        \/ (entered w path w' /\ opendir_dot w' = Ret None w'))
  /\ parseDirectory (Some "logs"%string) (Some "/"%string) example_world
     = Ret (Some (3, 350)) example_world.
Proof.
  split; [|split; [|split]].
  - intros w w1 path origin names Hin Hdir He ds value.
    rewrite (parseDirectory_exact w w1 path origin names Hin Hdir), He.
    exists (open_gz w1 + format_failures w1 (candidates names))%nat. cbv zeta.
    destruct origin as [o|]; [|reflexivity].
    unfold bind, chdir_s, bind.
    destruct (chdir_result o (set_open_gz w1 (open_gz w1
                + format_failures w1 (candidates names)))) as [H|[w3 H]];
      rewrite H.
    + left. split; reflexivity.
    + right. exists w3. split; reflexivity.
  - intros w w1 w2 path origin names r Hin Hdir H ds.
    rewrite (parseDirectory_exact w w1 path origin names Hin Hdir) in H.
    destruct (some_endless w1 (candidates names)); [discriminate|].
    apply finish_value in H. exact (proj1 H).
  - intros w w' path origin H. unfold parseDirectory in H.
    unfold bind at 1 in H.
    assert (forall p, chdir p w = Ret (-1) w \/ exists w1, chdir p w = Ret 0 w1)
      as Hch by (intros p; apply chdir_result).
    assert (forall w1, entered w path w1 ->
              (dir <- opendir_dot ;;
               match dir with
               | Some names =>
                   sf <- scan_entries names 0 0 ;;
                   (let (sum, file) := sf : Z * Z in
                    r <- parseFile "latest.log" ;;
                    (let (sum0, file0) :=
                       match r with
                       | Parsed tmp => (sum + tmp, file + 1)
                       | _ => (sum, file)
                       end in
                     match origin with
                     | Some o => chdir_s o
                     | None => ret tt
                     end ;;; ret (Some (file0, sum0))))
               | None => ret None
               end) w1 = Ret None w' ->
              entered w path w' /\ opendir_dot w' = Ret None w') as Hrest.
    { intros w1 Hin Hr. unfold bind at 1 in Hr.
      destruct (opendir_dot w1) as [[names|] wd| |] eqn:Ed; try discriminate.
      - exfalso. unfold bind in Hr.
        destruct (scan_entries names 0 0 wd) as [[sum file] wa| |]; try discriminate.
        destruct (parseFile "latest.log" wa) as [r wb| |]; try discriminate.
        destruct r; destruct origin as [o|];
          try (unfold chdir_s, bind in Hr;
               destruct (chdir o wb) as [c wc| |]; try discriminate;
               destruct (negb (c =? 0)); discriminate);
          discriminate.
      - assert (wd = w1) as ->.
        { unfold opendir_dot in Ed.
          destruct (lookup (fs w1) (cwd w1)) as [[| | ? [|] | ]|];
            congruence. }
        unfold ret in Hr. injection Hr as <-. split; assumption. }
    destruct path as [p|].
    + destruct (Hch p) as [Hc|[w1 Hc]]; rewrite Hc in H.
      * left. exists p. cbn in H. unfold ret in H. injection H as <-.
        split; [reflexivity|exact Hc].
      * right. cbn [Z.eqb negb] in H. apply (Hrest w1 Hc H).
    + right. unfold ret at 1 in H. cbn [Z.eqb negb] in H.
      apply (Hrest w eq_refl H).
  - vm_compute. reflexivity.
Qed.

Lemma parseDirectory_aggregates_witness :
  exists n,
    parseDirectory (Some "logs"%string) None example_world
    = Ret (Some (3, 350)) (set_open_gz (set_cwd example_world ["logs"%string]) n).
Proof.
  destruct (proj1 parseDirectory_aggregates
              example_world (set_cwd example_world ["logs"%string])
              (Some "logs"%string) None
              [ "."; ".."; "2023-10-05-1.log.gz"; "notes.txt";
                "2023-10-06-1.log.gz"; "latest.log" ]%string
              eq_refl eq_refl eq_refl) as [n H].
  exists n. cbv beta zeta iota in H. rewrite H.
  apply (f_equal (fun v => Ret v _)). vm_compute. reflexivity.
Defined.

(** ** Files that are read to their end *)

(** X18: on a stream that is read to its end, every call of [parseLine]
    observes the end of the stream or leaves fewer bytes unread, the byte
    pushed back included; hence both loops of [parseFile] come to an end
    within the fuel they are given, more fuel does not change their
    result, and [parseFile] returns for a regular file that it may read. *)
Theorem parseFile_terminates :
  (forall gf : gzFile,
      failing gf = false ->
      past (snd (parseLine gf)) = true
      \/ (List.length (data (snd (parseLine gf))) < List.length (data gf))%nat)
  /\ (forall content : list byte,
        exists r,
          find_start (fuel_for content) (fresh content) = Some r
          /\ forall more, find_start (fuel_for content + more) (fresh content) = Some r)
  /\ (forall (content : list byte) (start : Z) (gf1 : gzFile),
        find_start (fuel_for content) (fresh content) = Some (Some (start, gf1)) ->
        exists r,
          find_end (fuel_for content) gf1 start = Some r
          /\ forall more, find_end (fuel_for content + more) gf1 start = Some r)
  /\ (forall (w : world) (path : string) (content : list byte),
        node_at w path = Some (Reg true content) ->
        exists r w', parseFile path w = Ret r w').
Proof.
  split; [exact parseLine_consumes|]. split; [|split].
  - intros content. destruct (find_start_total content) as [r Hr].
    exists r. split; [exact Hr|].
    intros more. apply find_start_more. exact Hr.
  - intros content start gf1 H.
    destruct (find_end_total content start gf1 H) as [r Hr].
    exists r. split; [exact Hr|].
    intros more. apply find_end_more. exact Hr.
  - intros w path content Hn.
    rewrite (parseFile_opened w path content Hn). eexists. eexists. reflexivity.
Qed.

Lemma parseFile_terminates_witness :
  exists r,
    find_end (fuel_for session_two)
      (fresh (bytes "[23:03:20] [main/INFO]: Stopping" ++ [x0a])) 82800 = Some r
    /\ forall more,
        find_end (fuel_for session_two + more)
          (fresh (bytes "[23:03:20] [main/INFO]: Stopping" ++ [x0a])) 82800 = Some r.
Proof.
  apply (proj1 (proj2 (proj2 parseFile_terminates)) session_two).
  reflexivity.
Defined.

(** ** What the aggregating functions return *)

Lemma returns_or_exits_bind {A B : Type} (P : A -> Prop) (Q : B -> Prop)
    (m : M A) (k : A -> M B) (w : world) :
  returns_or_exits P (m w) ->
  (forall a w', P a -> returns_or_exits Q (k a w')) ->
  returns_or_exits Q (bind m k w).
Proof.
  unfold bind. destruct (m w) as [a w'| |]; cbn; auto.
Qed.

Lemma returns_or_exits_weaken {A : Type} (P Q : A -> Prop) (r : result A) :
  (forall a, P a -> Q a) -> returns_or_exits P r -> returns_or_exits Q r.
Proof. destruct r; cbn; auto. Qed.

Lemma chdir_returns (path : string) (w : world) :
  returns_or_exits (fun _ => True) (chdir path w).
Proof.
  destruct (chdir_result path w) as [H|[w' H]]; rewrite H; exact I.
Qed.

Lemma chdir_s_returns (path : string) (w : world) :
  returns_or_exits (fun _ => True) (chdir_s path w).
Proof.
  unfold chdir_s, bind.
  destruct (chdir_result path w) as [H|[w' H]]; rewrite H; cbn; auto.
Qed.

Lemma restore_returns (origin : option string) (w : world) :
  returns_or_exits (fun _ => True)
    (match origin with Some o => chdir_s o | None => ret tt end w).
Proof. destruct origin; [apply chdir_s_returns|exact I]. Qed.

Lemma opendir_dot_returns (w : world) :
  returns_or_exits (fun _ => True) (opendir_dot w).
Proof.
  unfold opendir_dot.
  destruct (lookup (fs w) (cwd w)) as [[| | ? [|] | ]|]; exact I.
Qed.

Lemma parseFile_returns_or_exits (path : string) (w : world) :
  returns_or_exits (fun _ => True) (parseFile path w).
Proof. rewrite parseFile_exact. destruct (file_outcome w path); exact I. Qed.

Lemma scan_entries_returns (names : list string) (sum file : Z) (w : world) :
  0 <= file ->
  returns_or_exits (fun sf => 0 <= snd sf) (scan_entries names sum file w).
Proof.
  intros H. rewrite scan_entries_exact.
  destruct (some_endless w (filter accepted names)); cbn; [exact I|lia].
Qed.

Lemma parseDirectory_returns (path origin : option string) (w : world) :
  returns_or_exits (count_at_least 0) (parseDirectory path origin w).
Proof.
  unfold parseDirectory.
  apply (returns_or_exits_bind (fun _ => True)).
  { destruct path; [apply chdir_returns|exact I]. }
  intros r w1 _. destruct (negb (r =? 0)); [exact I|].
  apply (returns_or_exits_bind (fun _ => True)); [apply opendir_dot_returns|].
  intros [names|] w2 _; [|exact I].
  apply (returns_or_exits_bind (fun sf => 0 <= snd sf));
    [apply scan_entries_returns; lia|].
  intros [sum file] w3 Hf. cbn [snd] in Hf.
  apply (returns_or_exits_bind (fun _ => True));
    [apply parseFile_returns_or_exits|].
  intros o w4 _.
  destruct o as [tmp| |];
    (apply (returns_or_exits_bind (fun _ => True)); [apply restore_returns|]);
    intros _ w5 _; cbn; lia.
Qed.

Lemma scan_versions_returns (names : list string) :
  forall (sum file : Z) (w : world),
    0 <= file ->
    returns_or_exits (fun sf => 0 <= snd sf) (scan_versions names sum file w).
Proof.
  induction names as [|d_name rest IH]; intros sum file w Hf; [exact Hf|].
  cbn [scan_versions].
  destruct (String.eqb d_name "." || String.eqb d_name ".."); [apply IH; exact Hf|].
  apply (returns_or_exits_bind (fun _ => True)); [apply chdir_returns|].
  intros r w1 _. destruct (negb (r =? 0)); [apply IH; exact Hf|].
  apply (returns_or_exits_bind (count_at_least 0)); [apply parseDirectory_returns|].
  intros [[n tmp]|] w2 Hn; cbn [count_at_least] in Hn;
    (apply (returns_or_exits_bind (fun _ => True)); [apply chdir_s_returns|]);
    intros _ w3 _; apply IH; lia.
Qed.

Lemma parseDotMinecraftDirectory_returns (path origin : option string) (w : world) :
  returns_or_exits
    (fun r => count_at_least 0 r /\ (path = None -> r <> None))
    (parseDotMinecraftDirectory path origin w).
Proof.
  unfold parseDotMinecraftDirectory.
  apply (returns_or_exits_bind (fun r => path = None -> r = 0)).
  { destruct path; [|cbn; auto].
    eapply returns_or_exits_weaken; [|apply chdir_returns].
    intros a _ H. discriminate. }
  intros r w1 Hr. destruct (negb (r =? 0)) eqn:Er.
  { cbn. split; [exact I|]. intros Hp. rewrite (Hr Hp) in Er. discriminate. }
  apply (returns_or_exits_bind (count_at_least 0));
    [apply parseDirectory_returns|].
  intros ret_ w2 Hret.
  remember (match ret_ with
            | Some (n, tmp) => (0 + tmp, 0 + n)
            | None => (0, 0)
            end) as sf0 eqn:Esf.
  assert (0 <= snd sf0) as Hf
      by (subst; destruct ret_ as [[n tmp]|]; cbn in *; lia).
  clear Esf. destruct sf0 as [sum file]. cbn [snd] in Hf.
  apply (returns_or_exits_bind (fun _ => True)); [apply chdir_returns|].
  intros r' w3 _.
  apply (returns_or_exits_bind (fun sf => 0 <= snd sf)).
  - destruct (negb (r' =? 0)); [exact Hf|].
    apply (returns_or_exits_bind (fun _ => True)); [apply opendir_dot_returns|].
    intros dir w4 _.
    apply (returns_or_exits_bind (fun sf => 0 <= snd sf)).
    + destruct dir as [names|]; [apply scan_versions_returns; exact Hf|exact Hf].
    + intros sf w5 Hsf.
      apply (returns_or_exits_bind (fun _ => True)); [apply chdir_s_returns|].
      intros _ w6 _. exact Hsf.
  - intros [sum' file'] w4 Hsf. cbn [snd] in Hsf.
    apply (returns_or_exits_bind (fun _ => True)); [apply restore_returns|].
    intros _ w5 _. cbn. split; [exact Hsf|discriminate].
Qed.

(** X8: called with a NULL [path], as [autoParse] does,
    [parseDotMinecraftDirectory] never returns -1: whatever it returns is
    a file count that is not negative, a missing [logs] or [versions]
    directory being no failure; and when it ends the process, in
    [chdir_s], the exit status is 1.  (The [case -1] that [autoParse] has
    for it is never taken.) *)
Theorem parseDotMinecraftDirectory_never_fails (origin : option string) (w : world) :
  (forall (r : option (Z * Z)) (w' : world),
      parseDotMinecraftDirectory None origin w = Ret r w' ->
      exists n t, r = Some (n, t) /\ 0 <= n)
  /\ (forall status : Z,
        parseDotMinecraftDirectory None origin w = Exit status -> status = 1).
Proof.
  pose proof (parseDotMinecraftDirectory_returns None origin w) as H.
  split.
  - intros r w' E. rewrite E in H. cbn in H. destruct H as [Hc Hn].
    destruct r as [[n t]|].
    + exists n, t. split; [reflexivity|exact Hc].
    + exfalso. apply Hn; reflexivity.
  - intros status E. rewrite E in H. exact H.
Qed.

Lemma parseDotMinecraftDirectory_never_fails_witness :
  exists n t, Some (0, 0) = Some (n, t) /\ 0 <= n.
Proof.
  apply (proj1 (parseDotMinecraftDirectory_never_fails None
                  (set_cwd example_world ["empty"%string]))
           (Some (0, 0)) (set_cwd example_world ["empty"%string])).
  reflexivity.
Defined.

(** ** [autoParse] and [main] *)

Lemma autoParse_returns (path origin : option string) (w : world) :
  returns_or_exits (count_at_least 1) (autoParse path origin w).
Proof.
  unfold autoParse.
  apply (returns_or_exits_bind (fun _ => True)); [exact I|].
  intros [[| |]|] w1 _; try exact I.
  - apply (returns_or_exits_bind (fun _ => True)); [apply chdir_returns|].
    intros r w2 _. destruct (negb (r =? 0)); [exact I|].
    apply (returns_or_exits_bind (fun _ => True)); [exact I|].
    intros cwd_ w3 _.
    apply (returns_or_exits_bind (count_at_least 0)).
    { destruct (String.eqb (basename cwd_) ".minecraft").
      - eapply returns_or_exits_weaken;
          [|apply parseDotMinecraftDirectory_returns].
        intros a [Ha _]. exact Ha.
      - apply parseDirectory_returns. }
    intros [[n tmp]|] w4 Hn; [|exact I]. cbn [count_at_least] in Hn.
    destruct (n =? 0) eqn:En; [exact I|].
    apply Z.eqb_neq in En.
    apply (returns_or_exits_bind (fun _ => True)); [apply restore_returns|].
    intros _ w5 _. cbn. lia.
  - apply (returns_or_exits_bind (fun _ => True));
      [apply parseFile_returns_or_exits|].
    intros [tmp| |] w2 _; cbn; try exact I. lia.
Qed.

(** X9: [autoParse] never reports success with no file: whenever it returns
    a file count, at least one file was parsed (a directory in which
    nothing parses is turned into the return value -1). *)
Theorem autoParse_counts_a_file
    (path origin : option string) (w w' : world) (n t : Z) :
  autoParse path origin w = Ret (Some (n, t)) w' -> 1 <= n.
Proof.
  intros H. pose proof (autoParse_returns path origin w) as Hr.
  rewrite H in Hr. exact Hr.
Qed.

Lemma autoParse_counts_a_file_witness :
  autoParse (Some "logs"%string) (Some "/"%string) example_world
  = Ret (Some (3, 350)) example_world
  /\ 1 <= 3.
Proof.
  split; [vm_compute; reflexivity|].
  apply (autoParse_counts_a_file (Some "logs"%string) (Some "/"%string)
           example_world example_world 3 350).
  vm_compute. reflexivity.
Defined.

(** X10: for a path that does not name a directory, [autoParse] changes
    neither the file system nor the working directory, whatever [origin]
    is: a regular file that parses counts as one file with its duration,
    and anything else (a file without a timestamp, a file that cannot be
    opened, a special file, a missing path) gives -1.  (For an archive that
    opens and whose reads end in an error, [autoParse] does not return.) *)
Theorem autoParse_not_a_directory (path : string) (origin : option string) (w : world) :
  (forall s r es, node_at w path <> Some (Dir s r es)) ->
  match node_at w path with
  | Some (Damaged true _) => autoParse (Some path) origin w = Spin
  | _ =>
      exists w',
        autoParse (Some path) origin w
        = Ret (match node_at w path with
               | Some (Reg _ _) =>
                   match file_outcome w path with
                   | Some (Parsed d) => Some (1, d)
                   | _ => None
                   end
               | _ => None
               end) w'
        /\ fs w' = fs w /\ cwd w' = cwd w
  end.
Proof.
  intros Hnd. unfold autoParse, bind, stat.
  pose proof (parseFile_exact w path) as Hpf. unfold file_outcome in *.
  destruct (node_at w path) as [[[|] c|[|] c|s r es|]|] eqn:E.
  - rewrite Hpf.
    destruct (parse_content c); eexists; (split; [reflexivity|]);
      split; reflexivity.
  - rewrite Hpf. eexists. split; [reflexivity|]. split; reflexivity.
  - rewrite Hpf. reflexivity.
  - rewrite Hpf. eexists. split; [reflexivity|]. split; reflexivity.
  - exfalso. exact (Hnd s r es eq_refl).
  - exists w. repeat split.
  - exists w. repeat split.
Qed.

Lemma autoParse_not_a_directory_witness :
  exists w',
    autoParse (Some "logs/latest.log"%string) (Some "/nowhere"%string) example_world
    = Ret (Some (1, 50)) w'
    /\ fs w' = fs example_world /\ cwd w' = cwd example_world.
Proof.
  refine (autoParse_not_a_directory "logs/latest.log" (Some "/nowhere"%string)
            example_world _).
  intros s r es. vm_compute. discriminate.
Defined.

Lemma main_loop_shift (args : list string) (origin : string) :
  forall (sum file : Z) (w : world),
    main_loop args origin sum file w =
    match main_loop args origin 0 0 w with
    | Ret (s, f) w' => Ret (sum + s, file + f) w'
    | Exit st => Exit st
    | Spin => Spin
    end.
Proof.
  induction args as [|a rest IH]; intros sum file w.
  - cbn. unfold ret. rewrite !Z.add_0_r. reflexivity.
  - cbn [main_loop]. unfold bind.
    destruct (autoParse (Some a) (Some origin) w) as [[[n tmp]|] w1| |];
      try reflexivity.
    + rewrite (IH (sum + tmp) (file + n) w1), (IH (0 + tmp) (0 + n) w1).
      destruct (main_loop rest origin 0 0 w1) as [[s f] w2| |]; try reflexivity.
      f_equal. f_equal; lia.
    + apply IH.
Qed.

Lemma main_loop_app (a b : list string) (origin : string) :
  forall (sum file : Z) (w : world),
    main_loop (a ++ b) origin sum file w =
    (sf <- main_loop a origin sum file ;;
     main_loop b origin (fst sf) (snd sf)) w.
Proof.
  induction a as [|x a IH]; intros sum file w; [reflexivity|].
  cbn [app main_loop]. unfold bind at 1 2 3.
  destruct (autoParse (Some x) (Some origin) w) as [[[n tmp]|] w1| |];
    try reflexivity; rewrite IH; reflexivity.
Qed.

(** X11: the totals of [main] add up over its arguments: if the arguments
    [a] give [s1] seconds in [f1] files and the arguments [b], handled from
    the state in which [a] left the process, give [s2] seconds in [f2]
    files, then [a] followed by [b] gives [s1 + s2] seconds in [f1 + f2]
    files. *)
Theorem main_loop_totals_add
    (a b : list string) (origin : string) (w w1 w2 : world) (s1 f1 s2 f2 : Z) :
  main_loop a origin 0 0 w = Ret (s1, f1) w1 ->
  main_loop b origin 0 0 w1 = Ret (s2, f2) w2 ->
  main_loop (a ++ b) origin 0 0 w = Ret (s1 + s2, f1 + f2) w2.
Proof.
  intros Ha Hb. rewrite main_loop_app. unfold bind. rewrite Ha. cbn [fst snd].
  rewrite main_loop_shift, Hb. reflexivity.
Qed.

Lemma main_loop_totals_add_witness :
  main_loop (["logs"%string] ++ ["logs/latest.log"%string]) "/" 0 0 example_world
  = Ret (350 + 50, 3 + 1) example_world.
Proof.
  apply (main_loop_totals_add ["logs"%string] ["logs/latest.log"%string] "/"
           example_world example_world example_world);
    vm_compute; reflexivity.
Defined.

(** X12: the hours, minutes and seconds that [main] prints for the total
    add up to the total again; for a total that is not negative the minutes
    and seconds lie between 0 and 59, and for a negative total (a log that
    runs over midnight) none of the three is positive. *)
Theorem total_time_fields_sum (sum : Z) :
  let '(h, m, s) := total_time_fields sum in
  h * 3600 + m * 60 + s = sum
  /\ (0 <= sum -> 0 <= h /\ 0 <= m < 60 /\ 0 <= s < 60)
  /\ (sum <= 0 -> h <= 0 /\ -60 < m <= 0 /\ -60 < s <= 0).
Proof.
  unfold total_time_fields.
  split; [|split; intros Hs]; Z.to_euclidean_division_equations; lia.
Qed.

Lemma total_time_fields_sum_witness :
  total_time_fields 3725 = (1, 2, 5)
  /\ 0 <= 1 /\ 0 <= 2 < 60 /\ 0 <= 5 < 60.
Proof.
  split; [reflexivity|].
  pose proof (total_time_fields_sum 3725) as H.
  change (1 * 3600 + 2 * 60 + 5 = 3725
          /\ (0 <= 3725 -> 0 <= 1 /\ 0 <= 2 < 60 /\ 0 <= 5 < 60)
          /\ (3725 <= 0 -> 1 <= 0 /\ -60 < 2 <= 0 /\ -60 < 5 <= 0)) in H.
  apply (proj1 (proj2 H)). lia.
Defined.

(** X13: an installation directory with neither a [logs] nor a [versions]
    subdirectory that can be entered is no error for
    [parseDotMinecraftDirectory]: it returns 0 files and 0 seconds and
    leaves the process as it was. *)
Theorem parseDotMinecraftDirectory_nothing_to_scan (w : world) :
  chdir "logs" w = Ret (-1) w ->
  chdir "versions" w = Ret (-1) w ->
  parseDotMinecraftDirectory None None w = Ret (Some (0, 0)) w.
Proof.
  intros Hl Hv.
  assert (parseDirectory (Some "logs"%string) (Some ".."%string) w = Ret None w)
    as Hpd by (unfold parseDirectory, bind; rewrite Hl; reflexivity).
  unfold parseDotMinecraftDirectory. unfold bind at 1. unfold ret at 1.
  cbn [Z.eqb negb]. unfold bind at 1. rewrite Hpd.
  unfold bind at 1. rewrite Hv. reflexivity.
Qed.

Lemma parseDotMinecraftDirectory_nothing_to_scan_witness :
  parseDotMinecraftDirectory None None (set_cwd example_world ["empty"%string])
  = Ret (Some (0, 0)) (set_cwd example_world ["empty"%string]).
Proof.
  apply parseDotMinecraftDirectory_nothing_to_scan; reflexivity.
Defined.

(** ** The reads of [isLogGzFile] *)

Lemma isLogGzFile_reads_result (fmt : list ascii) :
  forall (name : string) (i : nat),
    fst (isLogGzFile_reads fmt name i) = isLogGzFile_from fmt name i.
Proof.
  induction fmt as [|f fmt IH]; intros name i; [reflexivity|].
  cbn [isLogGzFile_reads isLogGzFile_from].
  specialize (IH name (S i)).
  destruct (isLogGzFile_reads fmt name (S i)) as [r reads]. cbn [fst] in IH.
  destruct (Ascii.eqb f "n").
  - destruct (negb (isdigit (int_of_char (cchar name i)))); [reflexivity|exact IH].
  - destruct (negb (Ascii.eqb (cchar name i) f)); [reflexivity|].
    destruct (Ascii.eqb f NUL); [reflexivity|exact IH].
Qed.

Lemma isLogGzFile_reads_shift (fmt : list ascii) :
  forall (c : ascii) (s : string) (i : nat),
    isLogGzFile_reads fmt (String c s) (S i) =
    (fst (isLogGzFile_reads fmt s i), map S (snd (isLogGzFile_reads fmt s i))).
Proof.
  induction fmt as [|f fmt IH]; intros c s i; [reflexivity|].
  cbn [isLogGzFile_reads]. rewrite cchar_shift, IH.
  destruct (isLogGzFile_reads fmt s (S i)) as [r reads]. cbn [fst snd map].
  destruct (Ascii.eqb f "n").
  - destruct (negb (isdigit (int_of_char (cchar s i)))); reflexivity.
  - destruct (negb (Ascii.eqb (cchar s i) f)); [reflexivity|].
    destruct (Ascii.eqb f NUL); reflexivity.
Qed.

Lemma Forall_map_S (n : nat) (l : list nat) :
  Forall (fun k => (k <= n)%nat) l ->
  Forall (fun k => (k <= S n)%nat) (map S l).
Proof.
  induction 1; cbn [map]; constructor; [lia|assumption].
Qed.

Lemma isLogGzFile_reads_within (fmt : list ascii) :
  forall name : string,
    Forall (fun k => (k <= String.length (c_str name))%nat)
           (snd (isLogGzFile_reads fmt name 0)).
Proof.
  induction fmt as [|f fmt IH]; intros name; [constructor|].
  cbn [isLogGzFile_reads].
  assert (forall n : nat, Forall (fun k => (k <= n)%nat) [O]) as Hzero
      by (intros n; constructor; [lia|constructor]).
  destruct name as [|c s].
  - change (cchar EmptyString 0) with NUL.
    change (isdigit (int_of_char NUL)) with false. cbn [negb].
    destruct (Ascii.eqb f "n"); [apply Hzero|].
    destruct (negb (Ascii.eqb NUL f)) eqn:E; [apply Hzero|].
    apply negb_false_iff, Ascii.eqb_eq in E. subst f.
    change (Ascii.eqb NUL NUL) with true. apply Hzero.
  - change (cchar (String c s) 0) with c.
    rewrite isLogGzFile_reads_shift. cbn [fst snd].
    assert (Ascii.eqb c NUL = false ->
            Forall (fun k => (k <= String.length (c_str (String c s)))%nat)
                   (0%nat :: map S (snd (isLogGzFile_reads fmt s 0)))) as Hgo.
    { intros Hc. cbn [c_str]. rewrite Hc. cbn [String.length].
      constructor; [lia|]. apply Forall_map_S, IH. }
    destruct (Ascii.eqb f "n").
    + fold (is_digit_char c). destruct (is_digit_char c) eqn:Ed; cbn [negb].
      * apply Hgo, digit_char_not_NUL, Ed.
      * apply Hzero.
    + destruct (Ascii.eqb c f) eqn:Ec; cbn [negb]; [|apply Hzero].
      destruct (Ascii.eqb f NUL) eqn:Ef; [apply Hzero|].
      apply Ascii.eqb_eq in Ec. subst f. apply Hgo, Ef.
Qed.

(** X14: [isLogGzFile] never reads [name] beyond its terminating NUL,
    however short the name is: every index at which the loop reads is at
    most the length of the C string. *)
Theorem isLogGzFile_reads_in_bounds (name : string) :
  fst (isLogGzFile_reads format name 0) = isLogGzFile name
  /\ Forall (fun k => (k <= String.length (c_str name))%nat)
            (snd (isLogGzFile_reads format name 0)).
Proof.
  split.
  - apply isLogGzFile_reads_result.
  - apply isLogGzFile_reads_within.
Qed.

(** ** Line ends *)

Lemma next_line_start_final (final tail : list byte) :
  Forall (fun b => terminator b = false) final ->
  Forall (fun b => terminator b = true) tail ->
  next_line_start (final ++ tail) = [].
Proof.
  intros Hf Ht. unfold next_line_start.
  induction Hf as [|b final Hb Hf IH].
  - cbn [app]. destruct Ht as [|t tail Ht Htail]; [reflexivity|].
    cbn [drop_while]. rewrite Ht. cbn [negb tl].
    induction Htail as [|t' tail Ht' Htail IH]; [reflexivity|].
    cbn [drop_while]. rewrite Ht'. exact IH.
  - cbn [app drop_while]. rewrite Hb. cbn [negb]. exact IH.
Qed.

(** X15: the duration does not depend on how the lines end.  For a log
    whose first line begins with a timestamp and whose last line begins
    with a timestamp, the result is the second minus the first, with
    carriage returns, line feeds or both as line ends, with blank lines,
    and with or without line terminators after the last line. *)
Theorem parseFile_any_line_ends
    (w : world) (path : string) (first junk final tail : list byte)
    (t1 : byte) (f1 f2 : Z * Z * Z) :
  node_at w path = Some (Reg true (first ++ t1 :: junk ++ final ++ tail)) ->
  timestamp_fields first = Some f1 ->
  terminator t1 = true ->
  ends_at_eol junk = true ->
  timestamp_fields final = Some f2 ->
  Forall (fun b => terminator b = false) final ->
  Forall (fun b => terminator b = true) tail ->
  parseFile path w = Ret (Parsed (seconds_of f2 - seconds_of f1)) w.
Proof.
  intros Hopen H1 Ht1 Hjunk H2 Hfinal Htail.
  set (content := first ++ t1 :: junk ++ final ++ tail) in *.
  rewrite (parseFile_opened w path content Hopen).
  assert (content = ((first ++ [t1]) ++ junk) ++ (final ++ tail)) as Hc
      by (unfold content; rewrite <- !app_assoc; reflexivity).
  assert (timestamp_fields content = Some f1) as Hhd
      by (apply timestamp_fields_app; exact H1).
  destruct (timestamps_head content f1 Hhd) as [rest Hts].
  assert (last (timestamps content) 0 = seconds_of f2) as Hlast.
  { unfold timestamps, fresh. rewrite Hc at 2.
    apply (scans_last_line (List.length ((first ++ [t1]) ++ junk))).
    - lia.
    - destruct junk as [|j junk'].
      + rewrite app_nil_r. rewrite ends_at_eol_app by discriminate. exact Ht1.
      + rewrite ends_at_eol_app by discriminate. exact Hjunk.
    - apply timestamp_fields_app. exact H2.
    - apply next_line_start_final; assumption.
    - rewrite <- Hc. unfold measure, fuel_for, fresh. cbn [data past]. lia. }
  unfold parse_content, duration_of. rewrite Hts in *. cbn [is_nil hd].
  rewrite Hlast. reflexivity.
Qed.

Lemma parseFile_any_line_ends_witness :
  parseFile "latest.log" crlf_world
  = Ret (Parsed (seconds_of (8, 0, 30) - seconds_of (8, 0, 0))) crlf_world.
Proof.
  apply (parseFile_any_line_ends crlf_world "latest.log"
           (bytes "[08:00:00] start")
           ([x0a] ++ bytes "java.lang.Error" ++ [x0d; x0a; x0d; x0a])
           (bytes "[08:00:30] stop") [] x0d).
  - reflexivity.
  - reflexivity.
  - reflexivity.
  - reflexivity.
  - reflexivity.
  - repeat constructor.
  - constructor.
Defined.

(** ** The length of an accepted name *)

Lemma fits_length (fmt : list ascii) :
  forall s : string, fits fmt s = true -> String.length s = List.length fmt.
Proof.
  induction fmt as [|f fmt IH]; intros [|c s] H; try discriminate.
  - reflexivity.
  - cbn [fits] in H. apply andb_true_iff in H. destruct H as [_ H].
    cbn [String.length List.length]. rewrite (IH s H). reflexivity.
Qed.

(** X16: a name that [isLogGzFile] accepts has exactly 19 characters, so
    that neither [.] nor [..] nor [latest.log] is ever taken for an
    archived log. *)
Theorem isLogGzFile_accepted_length (name : string) :
  isLogGzFile name = 1 -> String.length (c_str name) = 19%nat.
Proof.
  unfold isLogGzFile. rewrite format_eq.
  rewrite (isLogGzFile_from_fits _ format_no_NUL name).
  destruct (fits (list_ascii_of_string "nnnn-nn-nn-n.log.gz") (c_str name)) eqn:E;
    [|discriminate].
  intros _. apply (fits_length _ _ E).
Qed.

Lemma isLogGzFile_accepted_length_witness :
  String.length (c_str "2023-10-05-1.log.gz") = 19%nat.
Proof.
  apply isLogGzFile_accepted_length. reflexivity.
Defined.
